(** * xpra: win32 keyboard handling and audio option parsing

    A shallow embedding of
    - [xpra/platform/win32/keyboard.py] (class [Keyboard]: modifier-mask
      patching for NumLock and AltGr, the delayed [Control_L] machinery
      used to emulate AltGr, the key translation quirks), and
    - [xpra/audio/common.py] ([audio_option_or_all]).

    Python objects that are mutated in place ([self], the [KeyEvent], the
    [names] list, the module-level [KEY_TRANSLATIONS] dict) are threaded
    explicitly: every method takes the world before the call and returns
    the world after it. *)

From Stdlib Require Import ZArith Ascii String List Bool Lia Floats Uint63.
From stdpp Require Import base decidable option list strings gmap fin_maps.

#[local] Set Warnings "-clear-no-such-hyp".

Local Open Scope string_scope.
Local Open Scope list_scope.
Local Open Scope Z_scope.

(** ** Python helpers *)

(** Truth value of an attribute that is either [None] or a [str]:
    [None] and the empty string are falsy. *)
Definition truthy (o : option string) : bool :=
  match o with
  | None => false
  | Some s => if decide (s = "") then false else true
  end.

(** [l.remove(x)]: drops the first occurrence of [x].  Python raises
    [ValueError] when [x] is absent; every call site below is guarded by
    [x in l], and on an absent [x] this function returns [l] unchanged. *)
Fixpoint list_remove_first (x : string) (l : list string) : list string :=
  match l with
  | [] => []
  | y :: l' => if decide (x = y) then l' else y :: list_remove_first x l'
  end.

(** A [dict] whose order of insertion matters, by its items, oldest
    first: [d.get(k)] and [if k not in d: d[k] = v]. *)
Fixpoint dict_get {K V : Type} `{EqDecision K} (d : list (K * V)) (k : K) : option V :=
  match d with
  | [] => None
  | (k', v) :: d' => if decide (k' = k) then Some v else dict_get d' k
  end.

Definition dict_add_missing {K V : Type} `{EqDecision K} (k : K) (v : V)
    (d : list (K * V)) : list (K * V) :=
  match dict_get d k with
  | Some _ => d
  | None => d ++ [(k, v)]
  end.

(** [rmenu in (0, 1)] *)
Definition in_0_1 (v : Z) : bool := (v =? 0) || (v =? 1).

(** ** The virtual keys queried through [GetKeyState] *)

Inductive VirtualKey : Type :=
| VK_RMENU
| VK_NUMLOCK.

(** The answers of [GetKeyState] seen by one handler invocation.  Win32
    updates the key state reported by [GetKeyState] only when the thread
    reads a message from its queue, so all the queries made while one
    event is being handled read the same snapshot. *)
Definition KeyState : Type := VirtualKey -> Z.

(** ** Key events *)

Record KeyEvent : Type := mkKeyEvent {
  modifiers : list string;
  keyname : string;
  keyval : Z;
  keycode : Z;
  group : Z;
  string_ : string;
  pressed : bool
}.

Definition set_modifiers (m : list string) (e : KeyEvent) : KeyEvent :=
  mkKeyEvent m (keyname e) (keyval e) (keycode e) (group e) (string_ e) (pressed e).

(** ** [xpra/audio/common.py] *)

(** Python [str] values are modelled by [string]; a character stands for
    the code point of the same number (0 to 255). *)

Definition VORBIS := "vorbis".
Definition AAC := "aac".
Definition FLAC := "flac".
Definition MP3 := "mp3".
Definition WAV := "wav".
Definition OPUS := "opus".
Definition SPEEX := "speex".
Definition WAVPACK := "wavpack".

Definition OGG := "ogg".
Definition MKA := "mka".
Definition MPEG4 := "mpeg4".
Definition ID3V2 := "id3v2".
Definition RAW := "raw".

Definition LZ4 := "lz4".

Definition FLAC_OGG := (FLAC ++ "+" ++ OGG)%string.
Definition OPUS_OGG := (OPUS ++ "+" ++ OGG)%string.
Definition SPEEX_OGG := (SPEEX ++ "+" ++ OGG)%string.
Definition VORBIS_OGG := (VORBIS ++ "+" ++ OGG)%string.
Definition OPUS_MKA := (OPUS ++ "+" ++ MKA)%string.
Definition VORBIS_MKA := (VORBIS ++ "+" ++ MKA)%string.
Definition AAC_MPEG4 := (AAC ++ "+" ++ MPEG4)%string.
Definition WAV_LZ4 := (WAV ++ "+" ++ LZ4)%string.
Definition MP3_MPEG4 := (MP3 ++ "+" ++ MPEG4)%string.
Definition MP3_ID3V2 := (MP3 ++ "+" ++ ID3V2)%string.

(** [c.isspace()] for a code point below 256: the characters that
    [str.strip()] removes. *)
Definition isspace (c : ascii) : bool :=
  let n := N_of_ascii c in
  (((9 <=? n) && (n <=? 13)) || ((28 <=? n) && (n <=? 32))
   || (n =? 133) || (n =? 160))%N.

(** [s.split(sep)] for a one-character separator: always at least one
    piece, empty pieces are kept. *)
Fixpoint split (sep : ascii) (s : string) : list string :=
  match s with
  | EmptyString => [EmptyString]
  | String c s' =>
      if decide (c = sep) then EmptyString :: split sep s'
      else match split sep s' with
           | [] => [String c EmptyString]
           | piece :: pieces => String c piece :: pieces
           end
  end.

(** [c in s] for a character [c]. *)
Fixpoint contains (c : ascii) (s : string) : bool :=
  match s with
  | EmptyString => false
  | String d s' => if decide (d = c) then true else contains c s'
  end.

Fixpoint lstrip (s : string) : string :=
  match s with
  | EmptyString => EmptyString
  | String c s' => if isspace c then lstrip s' else s
  end.

Fixpoint rstrip (s : string) : string :=
  match s with
  | EmptyString => EmptyString
  | String c s' =>
      match rstrip s' with
      | EmptyString => if isspace c then EmptyString else String c EmptyString
      | r => String c r
      end
  end.

(** [s.strip()] *)
Definition strip (s : string) : string := rstrip (lstrip s).

(** What [audio_option_or_all] hands to [log.warn]; the texts are built by
    [xpra.util.engs] and [xpra.util.csv] from these values. *)
Inductive Warning : Type :=
| invalid_values (name : string) (invalid_options : list string)
| valid_options (all_values : list string)
| none_available (name : string).

(** The body of the inner loop: one stripped token is filed under [v] or
    under [invalid_options]. *)
Definition file_option (all_values : list string)
    (acc : list string * list string) (o : string) : list string * list string :=
  let o := strip o in
  if decide (o ∉ all_values) then (acc.1, acc.2 ++ [o]) else (acc.1 ++ [o], acc.2).

Definition audio_option_or_all (name : string) (options : list string)
    (all_values : list string) : list string * list Warning :=
  match options with
  | [] => (all_values, [])
  | _ :: _ =>
      let '(v, invalid_options) :=
        fold_left (fun acc x => fold_left (file_option all_values) (split "," x) acc)
          options ([], []) in
      let warnings :=
        match invalid_options with
        | [] => []
        | _ :: _ =>
            match all_values with
            | _ :: _ => [invalid_values name invalid_options; valid_options all_values]
            | [] => [none_available name]
            end
        end in
      (v, warnings)
  end.

(** The tokens named on the command line: every entry of [options] split
    at its commas, every piece stripped, in the order of the entries. *)
Definition option_tokens (options : list string) : list string :=
  flat_map (fun x => map strip (split "," x)) options.

(** ** The tokens as the specification words them *)

(** The whitespace that [str.strip()] removes, among the code points below
    256: tab, line feed, vertical tab, form feed, carriage return, the
    separators FS, GS, RS and US, the space, NEL and the no-break space. *)
Definition spec_whitespace : list N :=
  [9; 10; 11; 12; 13; 28; 29; 30; 31; 32; 133; 160]%N.

Definition spec_space (c : ascii) : Prop := N_of_ascii c ∈ spec_whitespace.

#[local] Instance spec_space_dec (c : ascii) : Decision (spec_space c) :=
  _ : Decision (N_of_ascii c ∈ spec_whitespace).

(** [token] is [piece] "whitespace-stripped": [piece] is [token] with
    nothing but whitespace before and after it, and [token] neither starts
    nor ends with whitespace. *)
Definition spec_stripped (piece token : string) : Prop :=
  exists before after : string,
    piece = (before ++ token ++ after)%string
    /\ Forall spec_space (list_ascii_of_string before)
    /\ Forall spec_space (list_ascii_of_string after)
    /\ (forall c, head (list_ascii_of_string token) = Some c -> ~ spec_space c)
    /\ (forall c, last (list_ascii_of_string token) = Some c -> ~ spec_space c).

(** [pieces] is [entry] "comma-split": joined with commas the pieces give
    [entry] back, and no piece holds a comma. *)
Definition spec_comma_split (entry : string) (pieces : list string) : Prop :=
  pieces <> []
  /\ String.concat "," pieces = entry
  /\ Forall (fun piece => ","%char ∉ list_ascii_of_string piece) pieces.

(** "The comma-split and whitespace-stripped tokens of the options
    entries", in the order of the entries. *)
Definition spec_tokens (options tokens : list string) : Prop :=
  exists pieces : list (list string),
    Forall2 spec_comma_split options pieces
    /\ Forall2 spec_stripped (concat pieces) tokens.

(** Decidable facts about concrete values are settled by evaluation. *)
Ltac by_computation := apply (bool_decide_unpack _); vm_compute; exact I.

(** ** Module constants read from the environment *)

(** Modelled from the spec: [xpra.util.envbool] and [xpra.util.envint] are
    not among the sources; the setting found in the environment, when
    there is a usable one, replaces the default. *)
Definition envbool (found : option bool) (default : bool) : bool :=
  match found with Some b => b | None => default end.

Definition envint (found : option Z) (default : Z) : Z :=
  match found with Some n => n | None => default end.

Section Win32.

(** What the process environment holds for [XPRA_EMULATE_ALTGR] and
    [XPRA_EMULATE_ALTGR_CONTROL_KEY_DELAY]. *)
Variable XPRA_EMULATE_ALTGR : option bool.
Variable XPRA_EMULATE_ALTGR_CONTROL_KEY_DELAY : option Z.

Definition EMULATE_ALTGR : bool := envbool XPRA_EMULATE_ALTGR true.
Definition EMULATE_ALTGR_CONTROL_KEY_DELAY : Z :=
  envint XPRA_EMULATE_ALTGR_CONTROL_KEY_DELAY 50.

(** The callables handed in as [send_key_action_cb]. *)
Context {Callback : Type}.

(** [KeyboardBase.mask_to_names] (xpra/platform/keyboard_base.py is not
    among the sources): the base decomposition of a raw modifier mask. *)
Variable super_mask_to_names : Z -> list string.

(** ** The keyboard object and the world around it *)

Record Keyboard : Type := mkKeyboard {
  hyper_modifier : bool;
  num_lock_modifier : option string;
  altgr_modifier : option string;
  delayed_event : option (Callback * Z * KeyEvent);
  last_layout_message : option string;
  (* attributes of KeyboardBase *)
  modifier_mappings : gmap string (list (Z * string));
  modifier_keys : gmap string string;
  __x11_layouts_to_win32_hkl : gmap string Z
}.

(** A delivery is one call of [KeyboardBase.process_key_event]. *)
Definition Delivery : Type := (Callback * Z * KeyEvent)%type.

Record World : Type := mkWorld {
  self : Keyboard;
  (* xpra.gtk_common.keymap.KEY_TRANSLATIONS *)
  KEY_TRANSLATIONS : gmap (string * Z * Z) string;
  (* delays of the GLib timeouts scheduled and not yet fired, oldest first *)
  timeouts : list Z;
  (* the calls of KeyboardBase.process_key_event made so far, oldest first *)
  sent : list Delivery
}.

Definition set_self (k : Keyboard) (w : World) : World :=
  mkWorld k (KEY_TRANSLATIONS w) (timeouts w) (sent w).

Definition set_hyper_modifier (b : bool) (k : Keyboard) : Keyboard :=
  mkKeyboard b (num_lock_modifier k) (altgr_modifier k) (delayed_event k)
    (last_layout_message k) (modifier_mappings k) (modifier_keys k)
    (__x11_layouts_to_win32_hkl k).

Definition set_delayed_event (d : option Delivery) (k : Keyboard) : Keyboard :=
  mkKeyboard (hyper_modifier k) (num_lock_modifier k) (altgr_modifier k) d
    (last_layout_message k) (modifier_mappings k) (modifier_keys k)
    (__x11_layouts_to_win32_hkl k).

(** [GLib.timeout_add(delay, self.send_delayed_key)] *)
Definition timeout_add (delay : Z) (w : World) : World :=
  mkWorld (self w) (KEY_TRANSLATIONS w) (timeouts w ++ [delay]) (sent w).

(** Modelled from the spec: [KeyboardBase.process_key_event] is not among
    the sources; it is the normal delivery of the event downstream, one
    call of [send_key_action_cb(wid, key_event)]. *)
Definition super_process_key_event
    (send_key_action_cb : Callback) (wid : Z) (key_event : KeyEvent)
    (w : World) : World :=
  mkWorld (self w) (KEY_TRANSLATIONS w) (timeouts w)
    (sent w ++ [(send_key_action_cb, wid, key_event)]).

(** ** [Keyboard.AltGr_modifiers] *)

(** [for x in add: if x not in modifiers: modifiers.append(x)] *)
Definition append_missing (add : list string) (modifiers : list string) : list string :=
  fold_left (fun (ms : list string) (x : string) =>
               if decide (x ∈ ms) then ms else ms ++ [x]) add modifiers.

(** [for x in clear: if x in modifiers: modifiers.remove(x)] *)
Definition remove_present (clear : list string) (modifiers : list string) : list string :=
  fold_left (fun (ms : list string) (x : string) =>
               if decide (x ∈ ms) then list_remove_first x ms else ms) clear modifiers.

Definition AltGr_modifiers (k : Keyboard) (modifiers : list string) (pressed : bool)
  : list string :=
  let add : list string := [] in
  let clear := ["mod1"; "mod2"; "control"] in
  let '(add, clear) :=
    match altgr_modifier k with
    | Some a =>
        if truthy (altgr_modifier k) then
          if pressed then (add ++ [a], clear) else (add, clear ++ [a])
        else (add, clear)
    | None => (add, clear)
    end in
  remove_present clear (append_missing add modifiers).

(** ** [Keyboard.mask_to_names] *)

Definition mask_to_names (gks : KeyState) (k : Keyboard) (mask : Z) : list string :=
  let names := super_mask_to_names mask in
  let names :=
    if EMULATE_ALTGR then
      let rmenu := gks VK_RMENU in
      if negb (in_0_1 rmenu) then AltGr_modifiers k names true else names
    else names in
  match num_lock_modifier k with
  | Some n =>
      if truthy (num_lock_modifier k) then
        let numlock := gks VK_NUMLOCK in
        if negb (numlock =? 0) && negb (bool_decide (n ∈ names)) then names ++ [n]
        else if (numlock =? 0) && bool_decide (n ∈ names) then list_remove_first n names
        else names
      else names
  | None => names
  end.

(** ** [Keyboard.init_vars] and [Keyboard.set_modifier_mappings] *)

(** [KeyboardBase.init_vars] and what [KeyboardBase.set_modifier_mappings]
    leaves in [self.modifier_keys] (keyboard_base.py is not among the
    sources). *)
Variable super_init_vars : World -> World.
Variable super_modifier_keys : gmap string (list (Z * string)) -> gmap string string.

(** [layouts] is what [x11_layouts_to_win32_hkl()] returns, an enumeration
    made by the operating system. *)
Definition init_vars (layouts : gmap string Z) (w : World) : World :=
  let w := super_init_vars w in
  let k := self w in
  let k := mkKeyboard (hyper_modifier k) None None None None
             (modifier_mappings k) (modifier_keys k) layouts in
  let t := KEY_TRANSLATIONS w in
  let t := <[("period", 46, 110) := "KP_Decimal"]> t in
  let t := <[("dead_tilde", 65107, 50) := "asciitilde"]> t in
  let t := <[("dead_grave", 65104, 55) := "grave"]> t in
  mkWorld k t (timeouts w) (sent w).

(** [Keyboard.set_platform_layout]: the handle passed to
    [ActivateKeyboardLayout], [None] when the layout has no registered
    handle and the method only logs. *)
Definition set_platform_layout (layout : string) (k : Keyboard) : option Z :=
  __x11_layouts_to_win32_hkl k !! layout.

(** The loop [for x in ("ISO_Level3_Shift", "Mode_switch")] with its
    [break]: the first truthy binding wins, and without one the attribute
    keeps the value it had. *)
Fixpoint find_altgr (keys : gmap string string) (xs : list string)
    (altgr : option string) : option string :=
  match xs with
  | [] => altgr
  | x :: xs' =>
      let mod_ := keys !! x in
      if truthy mod_ then mod_ else find_altgr keys xs' altgr
  end.

Definition set_modifier_mappings (mappings : gmap string (list (Z * string)))
    (w : World) : World :=
  let k := self w in
  let keys := super_modifier_keys mappings in
  let k := mkKeyboard (hyper_modifier k) (keys !! "Num_Lock")
             (find_altgr keys ["ISO_Level3_Shift"; "Mode_switch"] (altgr_modifier k))
             (delayed_event k) (last_layout_message k) mappings keys
             (__x11_layouts_to_win32_hkl k) in
  set_self k w.

(** ** [Keyboard.send_delayed_key] and [Keyboard.process_key_event] *)

Definition send_delayed_key (gks : KeyState) (w : World) : World :=
  let dk := delayed_event (self w) in
  match dk with
  | Some (cb, wid, key_event) =>
      let w := set_self (set_delayed_event None (self w)) w in
      let rmenu := gks VK_RMENU in
      if in_0_1 rmenu then super_process_key_event cb wid key_event w else w
  | None => w
  end.

(** The first part of [process_key_event]: a [Delete] key is turned into
    the [Hyper_L] carrier and sets the sticky flag, any other key gains
    ['mod4'] while the flag is set. *)
Definition translate_hyper (key_event : KeyEvent) (w : World) : KeyEvent * World :=
  if decide (keyname key_event = "Delete") then
    (mkKeyEvent (modifiers key_event) "Hyper_L" 16777215 50 0
       (string_ key_event) (pressed key_event),
     set_self (set_hyper_modifier (pressed key_event) (self w)) w)
  else if hyper_modifier (self w) then
    (set_modifiers (modifiers key_event ++ ["mod4"]) key_event, w)
  else (key_event, w).

(** The guard [EMULATE_ALTGR and self.altgr_modifier and
    len(self.modifier_mappings)>0]. *)
Definition altgr_emulated (k : Keyboard) : bool :=
  EMULATE_ALTGR && truthy (altgr_modifier k) && (0 <? Z.of_nat (size (modifier_mappings k))).

Definition process_key_event (gks : KeyState)
    (send_key_action_cb : Callback) (wid : Z) (key_event : KeyEvent)
    (w : World) : World :=
  if (keyval key_event =? 2^24 - 1) && bool_decide (keyname key_event = "VoidSymbol")
  then w
  else
    let '(key_event, w) := translate_hyper key_event w in
    if altgr_emulated (self w) then
      let rmenu := gks VK_RMENU in
      if decide (keyname key_event = "Control_L") then
        if in_0_1 rmenu then
          let w := set_self (set_delayed_event
                     (Some (send_key_action_cb, wid, key_event)) (self w)) w in
          timeout_add EMULATE_ALTGR_CONTROL_KEY_DELAY w
        else w
      else
        let '(key_event, w) :=
          if decide (keyname key_event = "Alt_R") then
            let w := if in_0_1 rmenu
                     then set_self (set_delayed_event None (self w)) w
                     else w in
            (mkKeyEvent (AltGr_modifiers (self w) (modifiers key_event) true)
               "" (-1) (-1) (-1) "" (pressed key_event), w)
          else (key_event, w) in
        let w := send_delayed_key gks w in
        super_process_key_event send_key_action_cb wid key_event w
    else
      let w := send_delayed_key gks w in
      super_process_key_event send_key_action_cb wid key_event w.

(** The GLib main loop fires the oldest outstanding timeout: it calls
    [self.send_delayed_key], whose [None] result ends the timeout. *)
Definition timeout_fire (gks : KeyState) (w : World) : World :=
  match timeouts w with
  | [] => w
  | _ :: rest =>
      send_delayed_key gks (mkWorld (self w) (KEY_TRANSLATIONS w) rest (sent w))
  end.

(** [Keyboard.get_keymap_modifiers] *)
Definition get_keymap_modifiers
  : gmap string string * list string * list string :=
  (∅, [], ["lock"]).

(** ** Keyboard layouts *)

(** A row of [WIN32_LAYOUTS] (xpra/keyboard/layouts.py is not among the
    sources), as in [("ARA", "Saudi Arabia", "Arabic", 1356, "ar", [])]:
    the methods below read the fields at index 2, 4 and 5. *)
Record Win32Layout : Type := mkWin32Layout {
  win32_code : string;
  win32_country : string;
  win32_name : string;
  win32_number : Z;
  win32_x11_layout : string;
  win32_variants : list string
}.

(** The two tables of xpra/keyboard/layouts.py.  [WIN32_LAYOUTS] is given
    by its items in the order of the dict, because [get_all_x11_layouts]
    walks them; [WIN32_KEYBOARDS] is only looked up. *)
Variable WIN32_LAYOUTS : list (Z * Win32Layout).
Variable WIN32_KEYBOARDS : gmap Z (string * string).

(** The local dict [KMASKS], in the order of its items. *)
Definition KMASKS : list (Z * list Z) :=
  [(0xffffffff, [0; 16]); (0xffff, [0]); (0x3ff, [0])].

(** The loop [for bitshift in bitshifts] with its [break]: the first
    candidate found in [WIN32_LAYOUTS], else the last one computed. *)
Fixpoint find_kbid (hkl mask : Z) (bitshifts : list Z) (kbid : Z) : Z :=
  match bitshifts with
  | [] => kbid
  | bitshift :: rest =>
      let kbid := Z.shiftr (Z.land hkl mask) bitshift in
      match dict_get WIN32_LAYOUTS kbid with
      | Some _ => kbid
      | None => find_kbid hkl mask rest kbid
      end
  end.

(** The loop [for mask, bitshifts in KMASKS.items()] for one handle: the
    first mask that names a layout not yet registered registers the
    handle under it and ends the loop. *)
Fixpoint register_handle (hkl : Z) (masks : list (Z * list Z))
    (defs : list (string * Z)) : list (string * Z) :=
  match masks with
  | [] => defs
  | (mask, bitshifts) :: rest =>
      let kbid := find_kbid hkl mask bitshifts 0 in
      match dict_get WIN32_LAYOUTS kbid with
      | Some row =>
          match dict_get defs (win32_x11_layout row) with
          | None => defs ++ [(win32_x11_layout row, hkl)]
          | Some _ => register_handle hkl rest defs
          end
      | None => register_handle hkl rest defs
      end
  end.

(** Where an item of the handle dict comes from: the handle is shifted
    and masked as [KMASKS] says, and the number found is a key of
    [WIN32_LAYOUTS] whose row has the layout. *)
Definition handle_names_layout (masks : list (Z * list Z)) (hkl : Z)
    (layout : string) : Prop :=
  exists (mask : Z) (bitshifts : list Z) (bitshift : Z) (row : Win32Layout),
    (mask, bitshifts) ∈ masks
    /\ bitshift ∈ bitshifts
    /\ dict_get WIN32_LAYOUTS (Z.shiftr (Z.land hkl mask) bitshift) = Some row
    /\ win32_x11_layout row = layout.

(** The handles that [GetKeyboardLayoutList] wrote, as ctypes hands them
    out: a NULL handle reads as [None], and [int(None)] raises. *)
Fixpoint register_handles (handles : list (option Z)) (defs : list (string * Z))
  : list (string * Z) :=
  match handles with
  | [] => defs
  | None :: _ => defs
  | Some hkl :: rest => register_handles rest (register_handle hkl KMASKS defs)
  end.

(** [x11_layouts_to_win32_hkl]; [handles] is [None] when the enumeration
    itself raises.  Any exception ends the function with the dict built so
    far. *)
Definition x11_layouts_to_win32_hkl (handles : option (list (option Z)))
  : list (string * Z) :=
  match handles with
  | None => []
  | Some hs => register_handles hs []
  end.

(** [_GetKeyboardLayoutList]: the handles as integers, [None] for an
    exception. *)
Fixpoint int_handles (handles : list (option Z)) : option (list Z) :=
  match handles with
  | [] => Some []
  | None :: _ => None
  | Some hkl :: rest =>
      match int_handles rest with
      | Some l => Some (hkl :: l)
      | None => None
      end
  end.

Definition _GetKeyboardLayoutList (handles : option (list (option Z)))
  : option (list Z) :=
  match handles with
  | None => None
  | Some hs => int_handles hs
  end.

(** [Keyboard.get_all_x11_layouts] *)
Definition get_all_x11_layouts : list (string * string) :=
  fold_left
    (fun (x11_layouts : list (string * string)) (win32_layout : Win32Layout) =>
       match dict_get x11_layouts (win32_x11_layout win32_layout) with
       | Some _ => x11_layouts
       | None => x11_layouts ++ [(win32_x11_layout win32_layout, win32_name win32_layout)]
       end)
    (map snd WIN32_LAYOUTS) [].

(** What the operating system answers to the three queries of
    [get_layout_spec]: the layout handles; the layout name, [None] when
    [GetKeyboardLayoutName] fails and [Some None] when [int(name, 16)]
    raises [ValueError]; the handle of the active layout, [None] when the
    query or the use of its result raises. *)
Record LayoutQueries : Type := mkLayoutQueries {
  layout_handles : option (list (option Z));
  layout_name : option (option Z);
  active_layout : option Z
}.

(** The warnings, errors and the one info line of [get_layout_spec]. *)
Inductive LayoutMessage : Type :=
| error_layout_list
| warn_layout_name_parse
| warn_unknown_codename (val : Z) (descr : string)
| warn_unknown_layout (ival : Z)
| error_active_layout
| info_keyboard_layout (descr : option string) (layout : string) (layout_code : Z).

(** The loop [for mask in KMASKS] over the parsed layout name. *)
Fixpoint name_masks (ival : Z) (masks : list Z)
    (layout descr : option string) (layout_code : Z)
    (layouts_defs : list (string * Z)) (messages : list LayoutMessage)
  : option string * option string * Z * list (string * Z) * list LayoutMessage :=
  match masks with
  | [] => (layout, descr, layout_code, layouts_defs, messages)
  | mask :: rest =>
      let val := Z.land ival mask in
      match WIN32_KEYBOARDS !! val with
      | Some (_layout, _descr) =>
          if decide (_layout = "??") then
            name_masks ival rest layout descr layout_code layouts_defs
              (messages ++ [warn_unknown_codename val _descr])
          else
            let layouts_defs := dict_add_missing _layout ival layouts_defs in
            if truthy layout then
              name_masks ival rest layout descr layout_code layouts_defs messages
            else (Some _layout, Some _descr, ival, layouts_defs, messages)
      | None => name_masks ival rest layout descr layout_code layouts_defs messages
      end
  end.

(** The loop [for mask in KMASKS] over the handle of the active layout. *)
Fixpoint active_masks (hkl : Z) (masks : list Z)
    (layout : option string) (layout_code : Z)
    (variants : option (list string)) (layouts_defs : list (string * Z))
  : option string * Z * option (list string) * list (string * Z) :=
  match masks with
  | [] => (layout, layout_code, variants, layouts_defs)
  | mask :: rest =>
      let kbid := Z.land hkl mask in
      match dict_get WIN32_LAYOUTS kbid with
      | None => active_masks hkl rest layout layout_code variants layouts_defs
      | Some row =>
          let layout0 := win32_x11_layout row in
          let variants := Some (win32_variants row) in
          let layouts_defs := dict_add_missing layout0 hkl layouts_defs in
          if negb (truthy layout) && truthy (Some layout0) then
            active_masks hkl rest (Some layout0) hkl variants layouts_defs
          else active_masks hkl rest layout layout_code variants layouts_defs
      end
  end.

Definition set_last_layout_message (m : option string) (k : Keyboard) : Keyboard :=
  mkKeyboard (hyper_modifier k) (num_lock_modifier k) (altgr_modifier k)
    (delayed_event k) m (modifier_mappings k) (modifier_keys k)
    (__x11_layouts_to_win32_hkl k).

(** [Keyboard.get_layout_spec]: the tuple returned, what is logged above
    debug level, and the world afterwards. *)
Definition get_layout_spec (queries : LayoutQueries) (w : World)
  : (option string * list string * option string * option (list string) * string)
    * list LayoutMessage * World :=
  let layout : option string := None in
  let variant : option string := None in
  let variants : option (list string) := None in
  let options := "" in
  let layout_code := 0 in
  (* the layouts of the handles *)
  let '(layouts_defs, messages) :=
    match _GetKeyboardLayoutList (layout_handles queries) with
    | Some l => (fold_left (fun defs hkl => register_handle hkl KMASKS defs) l [], [])
    | None => ([], [error_layout_list])
    end in
  (* the layout name *)
  let descr : option string := None in
  let '(layout, descr, layout_code, layouts_defs, messages, w) :=
    match layout_name queries with
    | None => (layout, descr, layout_code, layouts_defs, messages, w)
    | Some None =>
        (layout, descr, layout_code, layouts_defs,
         messages ++ [warn_layout_name_parse], w)
    | Some (Some ival) =>
        let '(layout, descr, layout_code, layouts_defs, messages) :=
          name_masks ival (map fst KMASKS) layout descr layout_code layouts_defs
            messages in
        if truthy layout then (layout, descr, layout_code, layouts_defs, messages, w)
        else (layout, descr, layout_code, layouts_defs,
              messages ++ [warn_unknown_layout ival],
              set_self (set_last_layout_message layout (self w)) w)
    end in
  (* the active layout *)
  let '(layout, layout_code, variants, layouts_defs, messages) :=
    match active_layout queries with
    | Some hkl =>
        let '(layout, layout_code, variants, layouts_defs) :=
          active_masks hkl (map fst KMASKS) layout layout_code variants layouts_defs in
        (layout, layout_code, variants, layouts_defs, messages)
    | None => (layout, layout_code, variants, layouts_defs,
               messages ++ [error_active_layout])
    end in
  let layouts := map fst layouts_defs in
  let '(layout, layout_code) :=
    match layouts with
    | first :: _ =>
        if truthy layout then (layout, layout_code)
        else (Some first, default 0 (dict_get layouts_defs first))
    | [] => (layout, layout_code)
    end in
  let '(messages, w) :=
    match layout with
    | Some l =>
        if truthy (Some l) && negb (bool_decide (last_layout_message (self w) = Some l))
        then (messages
              ++ [info_keyboard_layout (if truthy descr then descr else None) l layout_code],
              set_self (set_last_layout_message (Some l) (self w)) w)
        else (messages, w)
    | None => (messages, w)
    end in
  ((layout, layouts, variant, variants, options), messages, w).

(** What the loops of [get_layout_spec] keep true: the keys of
    [layouts_defs] are distinct and hold the layout chosen so far. *)
Definition layout_registered (layout : option string)
    (layouts_defs : list (string * Z)) : Prop :=
  NoDup (map fst layouts_defs)
  /\ forall l : string, layout = Some l -> l ∈ map fst layouts_defs.

(** ** Keyboard repeat *)

(** [int(x)] for a float: truncation towards zero; an infinity or a NaN
    raises. *)
Definition int_of_float (x : float) : option Z :=
  match Prim2SF x with
  | S754_zero _ => Some 0
  | S754_finite sign m e =>
      let magnitude :=
        if 0 <=? e then Z.shiftl (Z.pos m) e else Z.shiftr (Z.pos m) (- e) in
      Some (if sign then - magnitude else magnitude)
  | S754_infinity _ => None
  | S754_nan => None
  end.

(** [Keyboard.get_keyboard_repeat]; the two arguments are what
    [GetIntSystemParametersInfo] answers for the delay and for the speed,
    [None] when the query raises.  The arithmetic on [_speed] is done in
    binary64 floats, as Python does it. *)
Definition get_keyboard_repeat (SPI_GETKEYBOARDDELAY SPI_GETKEYBOARDSPEED : option Z)
  : option (Z * Z) :=
  match SPI_GETKEYBOARDDELAY, SPI_GETKEYBOARDSPEED with
  | Some _delay, Some _speed =>
      let delay := (_delay + 1) * 250 in
      let _speed := Z.min 31 (Z.max 0 _speed) in
      let speed_float :=
        (1000 / (2.5 + 27.5 * PrimFloat.of_uint63 (Uint63.of_Z _speed) / 31))%float in
      match int_of_float speed_float with
      | Some speed => Some (delay, speed)
      | None => None
      end
  | _, _ => None
  end.

(** A snapshot given by its two readings. *)
Definition key_state (rmenu numlock : Z) : KeyState :=
  fun vk => match vk with VK_RMENU => rmenu | VK_NUMLOCK => numlock end.

(** ** The handler as a machine *)

(** What can happen to the keyboard object once it is initialised: the
    client hands it a key event, the main loop fires a timeout, or the
    server sends new modifier mappings. *)
Inductive Input : Type :=
| key_input (gks : KeyState) (send_key_action_cb : Callback) (wid : Z)
    (key_event : KeyEvent)
| timeout_input (gks : KeyState)
| mappings_input (mappings : gmap string (list (Z * string))).

Definition step (w : World) (i : Input) : World :=
  match i with
  | key_input gks cb wid key_event => process_key_event gks cb wid key_event w
  | timeout_input gks => timeout_fire gks w
  | mappings_input mappings => set_modifier_mappings mappings w
  end.

Definition run (w : World) (inputs : list Input) : World := fold_left step inputs w.

(** The worlds the handler can be in: [init_vars] has run, then any
    inputs. *)
Definition reachable (w : World) : Prop :=
  exists (layouts : gmap string Z) (w0 : World) (inputs : list Input),
    w = run (init_vars layouts w0) inputs.

(** Inputs that carry a [Control_L] key event. *)
Definition Control_L_input (i : Input) : Prop :=
  match i with
  | key_input _ _ _ key_event => keyname key_event = "Control_L"
  | _ => False
  end.

(** Key events that, under AltGr emulation, neither reach the parent nor
    flush the slot: those dropped at the first test of [process_key_event]
    and those named [Control_L]. *)
Definition held_back_input (i : Input) : Prop :=
  match i with
  | key_input _ _ _ key_event =>
      (keyval key_event = 2^24 - 1 /\ keyname key_event = "VoidSymbol")
      \/ keyname key_event = "Control_L"
  | _ => False
  end.

(** Inputs that [process_key_event] does not drop at its first test. *)
Definition forwards (i : Input) : bool :=
  match i with
  | key_input _ _ _ key_event =>
      negb ((keyval key_event =? 2^24 - 1)
            && bool_decide (keyname key_event = "VoidSymbol"))
  | _ => false
  end.

(** The pending disambiguation records: what the [delayed_event] slot holds. *)
Definition pending (w : World) : list Delivery :=
  match delayed_event (self w) with
  | Some d => [d]
  | None => []
  end.

(** ** The quirk corrections of [mask_to_names], step by step *)

(** The AltGr correction: lines 128-132 of keyboard.py. *)
Definition altgr_step (gks : KeyState) (k : Keyboard) (names : list string) : list string :=
  if EMULATE_ALTGR && negb (in_0_1 (gks VK_RMENU)) then AltGr_modifiers k names true
  else names.

(** The NumLock correction: lines 133-142 of keyboard.py. *)
Definition numlock_step (gks : KeyState) (k : Keyboard) (names : list string) : list string :=
  match num_lock_modifier k with
  | Some n =>
      if truthy (Some n) then
        if decide (gks VK_NUMLOCK = 0) then
          if decide (n ∈ names) then list_remove_first n names else names
        else
          if decide (n ∈ names) then names else names ++ [n]
      else names
  | None => names
  end.

(** The order the specification gives for the two corrections: NumLock
    (its step 3) first, AltGr (its step 4) on the result. *)
Definition spec_mask_to_names (gks : KeyState) (k : Keyboard) (mask : Z) : list string :=
  altgr_step gks k (numlock_step gks k (super_mask_to_names mask)).

(** ** Stand-ins for the base class *)

(** Modelled from the spec: [KeyboardBase.mask_to_names] is not among the
    sources.  It "decomposes a bitmask into the modifier tokens whose bit
    is set, in a fixed canonical order"; the bits are those of the GDK
    modifier masks. *)
Definition MODIFIER_MAP : list (string * Z) :=
  [("shift", 1); ("lock", 2); ("control", 4); ("mod1", 8);
   ("mod2", 16); ("mod3", 32); ("mod4", 64); ("mod5", 128)].

Definition KeyboardBase_mask_to_names (mask : Z) : list string :=
  map fst (filter (fun p : string * Z => Z.land mask (snd p) <> 0) MODIFIER_MAP).

(** Modelled from the spec: [KeyboardBase.init_vars] is not among the
    sources; it starts from empty modifier tables. *)
Definition KeyboardBase_init_vars (w : World) : World :=
  let k := self w in
  set_self (mkKeyboard (hyper_modifier k) (num_lock_modifier k) (altgr_modifier k)
              (delayed_event k) (last_layout_message k) ∅ ∅
              (__x11_layouts_to_win32_hkl k)) w.

(** Modelled from the spec: [KeyboardBase.set_modifier_mappings] is not
    among the sources; [modifier_keys] maps every key name listed under a
    modifier token to that token. *)
Definition KeyboardBase_modifier_keys (mappings : gmap string (list (Z * string)))
  : gmap string string :=
  map_fold (fun (modifier : string) (keys : list (Z * string)) (acc : gmap string string) =>
              foldr (fun (key : Z * string) acc => <[snd key := modifier]> acc) acc keys)
    ∅ mappings.

(** ** Scenarios *)

(** Key events as GDK reports them on win32, see the keymap quoted at the
    end of keyboard.py. *)
Definition Control_L_press : KeyEvent :=
  mkKeyEvent [] "Control_L" 65507 162 0 "" true.

Definition Alt_R_press : KeyEvent :=
  mkKeyEvent ["control"] "Alt_R" 65514 165 0 "" true.

Definition Alt_R_release : KeyEvent :=
  mkKeyEvent [] "Alt_R" 65514 165 0 "" false.

Definition VoidSymbol_event : KeyEvent :=
  mkKeyEvent [] "VoidSymbol" 16777215 0 0 "" true.

(** Modifier mappings of a layout with an AltGr key, without and with a
    NumLock binding. *)
Definition altgr_mappings : gmap string (list (Z * string)) :=
  {[ "mod5" := [(108, "ISO_Level3_Shift")] ]}.

Definition altgr_numlock_mappings : gmap string (list (Z * string)) :=
  {[ "mod5" := [(108, "ISO_Level3_Shift")]; "mod2" := [(77, "Num_Lock")] ]}.

(** A keyboard object by its [Num_Lock] and AltGr bindings, nothing
    pending. *)
Definition keyboard_bound (num_lock altgr : option string)
    (mappings : gmap string (list (Z * string))) : Keyboard :=
  mkKeyboard false num_lock altgr None None mappings
    (KeyboardBase_modifier_keys mappings) ∅.

Definition world_of (k : Keyboard) : World := mkWorld k ∅ [] [].

(** An ordinary key, and the [Delete] key that stands for Hyper. *)
Definition c_press : KeyEvent := mkKeyEvent ["control"] "c" 99 67 0 "c" true.

Definition Delete_press : KeyEvent := mkKeyEvent [] "Delete" 65535 46 0 "" true.

(** Rows of the kind [WIN32_LAYOUTS] and [WIN32_KEYBOARDS] hold. *)
Definition sample_layouts : list (Z * Win32Layout) :=
  [(1033, mkWin32Layout "USA" "United States" "English" 1252 "us" []);
   (1036, mkWin32Layout "FRA" "France" "French" 1252 "fr" ["oss"]);
   (3081, mkWin32Layout "AUS" "Australia" "English" 1252 "us" [])].

Definition sample_keyboards : gmap Z (string * string) :=
  {[ 0x409 := ("us", "US"); 0x40c := ("fr", "French") ]}.

(** * Properties *)

(** ** Lists of modifier names *)

Lemma filter_all (P : string -> Prop) `{forall x, Decision (P x)} (l : list string) :
  Forall P l -> filter P l = l.
Proof.
  induction 1 as [|x l Hx Hl IH]; [done|].
  by rewrite filter_cons_True, IH.
Qed.

Lemma filter_none (P : string -> Prop) `{forall x, Decision (P x)} (l : list string) :
  Forall (fun x => ~ P x) l -> filter P l = [].
Proof.
  induction 1 as [|x l Hx Hl IH]; [done|].
  by rewrite filter_cons_False.
Qed.

Lemma list_remove_first_elem_of (x y : string) (l : list string) :
  y ∈ list_remove_first x l -> y ∈ l.
Proof.
  induction l as [|z l IH]; simpl; [done|].
  destruct (decide (x = z)); set_solver.
Qed.

Lemma list_remove_first_other (x y : string) (l : list string) :
  y <> x -> y ∈ l -> y ∈ list_remove_first x l.
Proof.
  intros Hne. induction l as [|z l IH]; simpl; [done|].
  destruct (decide (x = z)); set_solver.
Qed.

Lemma list_remove_first_NoDup (x : string) (l : list string) :
  NoDup l -> NoDup (list_remove_first x l).
Proof.
  induction 1 as [|z l Hz Hl IH]; simpl; [constructor|].
  destruct (decide (x = z)); [done|].
  constructor; [|done].
  intros Hin. apply Hz. by eapply list_remove_first_elem_of.
Qed.

Lemma list_remove_first_gone (x : string) (l : list string) :
  NoDup l -> x ∉ list_remove_first x l.
Proof.
  induction 1 as [|z l Hz Hl IH]; simpl; [set_solver|].
  destruct (decide (x = z)); [by subst|set_solver].
Qed.

Lemma list_remove_first_absent (x : string) (l : list string) :
  x ∉ l -> list_remove_first x l = l.
Proof.
  induction l as [|z l IH]; simpl; [done|].
  intros Hx. destruct (decide (x = z)); [set_solver|].
  f_equal. apply IH. set_solver.
Qed.

Lemma append_missing_elem_of (add l : list string) (y : string) :
  y ∈ append_missing add l <-> y ∈ l \/ y ∈ add.
Proof.
  unfold append_missing. revert l.
  induction add as [|x add IH]; intros l; simpl; [set_solver|].
  rewrite IH. destruct (decide (x ∈ l)); set_solver.
Qed.

Lemma append_missing_NoDup (add l : list string) :
  NoDup l -> NoDup (append_missing add l).
Proof.
  unfold append_missing. revert l.
  induction add as [|x add IH]; intros l Hl; simpl; [done|].
  apply IH. destruct (decide (x ∈ l)); [done|].
  apply NoDup_app. split_and!; [done|set_solver|apply NoDup_singleton].
Qed.

Lemma remove_present_elem_of (clear l : list string) (y : string) :
  y ∈ remove_present clear l -> y ∈ l.
Proof.
  unfold remove_present. revert l.
  induction clear as [|x clear IH]; intros l; simpl; [done|].
  intros Hy. apply IH in Hy.
  destruct (decide (x ∈ l)); [by eapply list_remove_first_elem_of|done].
Qed.

Lemma remove_present_NoDup (clear l : list string) :
  NoDup l -> NoDup (remove_present clear l).
Proof.
  unfold remove_present. revert l.
  induction clear as [|x clear IH]; intros l Hl; simpl; [done|].
  apply IH. destruct (decide (x ∈ l)); [by apply list_remove_first_NoDup|done].
Qed.

Lemma remove_present_other (clear l : list string) (y : string) :
  y ∉ clear -> y ∈ l -> y ∈ remove_present clear l.
Proof.
  unfold remove_present. revert l.
  induction clear as [|x clear IH]; intros l Hy Hl; simpl; [done|].
  apply IH; [set_solver|].
  destruct (decide (x ∈ l)); [|done].
  apply list_remove_first_other; set_solver.
Qed.

Lemma remove_present_gone (clear l : list string) (y : string) :
  NoDup l -> y ∈ clear -> y ∉ remove_present clear l.
Proof.
  unfold remove_present. revert l.
  induction clear as [|x clear IH]; intros l Hl Hy; simpl; [set_solver|].
  set (l' := if decide (x ∈ l) then list_remove_first x l else l).
  assert (NoDup l') as Hl'.
  { subst l'. destruct (decide (x ∈ l)); [by apply list_remove_first_NoDup|done]. }
  destruct (decide (y = x)) as [->|Hne].
  - intros Hin. apply remove_present_elem_of in Hin. revert Hin. subst l'.
    destruct (decide (x ∈ l)); [by apply list_remove_first_gone|done].
  - apply IH; [done|set_solver].
Qed.

Lemma remove_present_iff (clear l : list string) (y : string) :
  NoDup l -> y ∈ remove_present clear l <-> y ∈ l /\ y ∉ clear.
Proof.
  intros Hl. split.
  - intros Hy. split; [by eapply remove_present_elem_of|].
    intros Hc. by eapply remove_present_gone.
  - intros [? ?]. by apply remove_present_other.
Qed.

Lemma list_remove_first_filter (x : string) (l : list string) :
  NoDup l -> list_remove_first x l = filter (fun y => y <> x) l.
Proof.
  induction 1 as [|z l Hz Hl IH]; simpl; [done|].
  destruct (decide (x = z)) as [->|Hne].
  - rewrite filter_cons_False by (intros Hn; by apply Hn).
    symmetry. apply filter_all, Forall_forall. intros y Hy ->. done.
  - rewrite filter_cons_True by done. by rewrite IH.
Qed.

Lemma remove_present_filter (clear l : list string) :
  NoDup l -> remove_present clear l = filter (fun y => y ∉ clear) l.
Proof.
  unfold remove_present. revert l.
  induction clear as [|x clear IH]; intros l Hl; simpl.
  - symmetry. apply filter_all, Forall_forall. intros y _. set_solver.
  - assert ((if decide (x ∈ l) then list_remove_first x l else l)
            = filter (fun y => y <> x) l) as ->.
    { destruct (decide (x ∈ l)); [by apply list_remove_first_filter|].
      symmetry. apply filter_all, Forall_forall. intros y Hy ->. done. }
    rewrite IH by by apply NoDup_filter.
    rewrite list_filter_filter. apply list_filter_iff. intros y. set_solver.
Qed.

(** ** [mask_to_names] *)

Lemma truthy_Some (s : string) : truthy (Some s) = true <-> s <> "".
Proof. simpl. destruct (decide (s = "")); split; intros; done. Qed.

Lemma in_0_1_true (v : Z) : in_0_1 v = true <-> v = 0 \/ v = 1.
Proof using Type. unfold in_0_1. by rewrite orb_true_iff, !Z.eqb_eq. Qed.

(** The method runs the AltGr correction first and the NumLock correction
    on its result. *)
Lemma mask_to_names_steps (gks : KeyState) (k : Keyboard) (mask : Z) :
  mask_to_names gks k mask
  = numlock_step gks k (altgr_step gks k (super_mask_to_names mask)).
Proof.
  unfold mask_to_names, numlock_step, altgr_step.
  set (base := super_mask_to_names mask).
  replace (if EMULATE_ALTGR
           then if negb (in_0_1 (gks VK_RMENU))
                then AltGr_modifiers k base true else base
           else base)
    with (if EMULATE_ALTGR && negb (in_0_1 (gks VK_RMENU))
          then AltGr_modifiers k base true else base)
    by (destruct EMULATE_ALTGR; reflexivity).
  generalize (if EMULATE_ALTGR && negb (in_0_1 (gks VK_RMENU))
              then AltGr_modifiers k base true else base).
  intros l. destruct (num_lock_modifier k) as [n|]; [|reflexivity].
  destruct (truthy (Some n)); [|reflexivity].
  destruct (Z.eqb_spec (gks VK_NUMLOCK) 0) as [E|E];
    destruct (decide (gks VK_NUMLOCK = 0)); try contradiction; simpl;
    destruct (decide (n ∈ l));
    rewrite ?bool_decide_eq_true_2, ?bool_decide_eq_false_2 by done; reflexivity.
Qed.

Lemma AltGr_modifiers_pressed (k : Keyboard) (a : string) (l : list string) :
  altgr_modifier k = Some a -> a <> "" ->
  AltGr_modifiers k l true
  = remove_present ["mod1"; "mod2"; "control"] (append_missing [a] l).
Proof.
  intros Ha Hne. unfold AltGr_modifiers. rewrite Ha.
  apply truthy_Some in Hne. rewrite Hne. reflexivity.
Qed.

Lemma AltGr_modifiers_unbound (k : Keyboard) (l : list string) (p : bool) :
  truthy (altgr_modifier k) = false ->
  AltGr_modifiers k l p = remove_present ["mod1"; "mod2"; "control"] l.
Proof.
  intros Hf. unfold AltGr_modifiers.
  destruct (altgr_modifier k); [rewrite Hf|]; reflexivity.
Qed.

Lemma numlock_step_other (gks : KeyState) (k : Keyboard) (l : list string) (x : string) :
  (forall n, num_lock_modifier k = Some n -> n <> "" -> x <> n) ->
  x ∈ numlock_step gks k l <-> x ∈ l.
Proof.
  intros Hx. unfold numlock_step.
  destruct (num_lock_modifier k) as [n|]; [|done].
  destruct (truthy (Some n)) eqn:Ht; [|done].
  apply truthy_Some in Ht. specialize (Hx n eq_refl Ht).
  destruct (decide (gks VK_NUMLOCK = 0)), (decide (n ∈ l)); try done.
  - split; [apply list_remove_first_elem_of|by apply list_remove_first_other].
  - set_solver.
Qed.

Lemma numlock_step_token (gks : KeyState) (k : Keyboard) (l : list string) (n : string) :
  num_lock_modifier k = Some n -> n <> "" -> NoDup l ->
  n ∈ numlock_step gks k l <-> gks VK_NUMLOCK <> 0.
Proof.
  intros Hn Hne Hl. unfold numlock_step. rewrite Hn.
  apply truthy_Some in Hne. rewrite Hne.
  destruct (decide (gks VK_NUMLOCK = 0)), (decide (n ∈ l)); try set_solver.
  split; [|done]. intros Hin. by apply list_remove_first_gone in Hin.
Qed.

Lemma numlock_step_on (gks : KeyState) (k : Keyboard) (l : list string) (n : string) :
  num_lock_modifier k = Some n -> n <> "" -> gks VK_NUMLOCK <> 0 ->
  n ∈ numlock_step gks k l.
Proof.
  intros Hn Hne Hon. unfold numlock_step. rewrite Hn.
  apply truthy_Some in Hne. rewrite Hne.
  destruct (decide (gks VK_NUMLOCK = 0)); [done|].
  destruct (decide (n ∈ l)); set_solver.
Qed.

(** C2 (amended): with AltGr emulation enabled, Right Alt read as down and a
    token bound to AltGr, and a base decomposition without repeated tokens,
    [mask_to_names] returns the base tokens with the AltGr token added and
    exactly "mod1", "mod2" and "control" removed; the one token handled
    differently is the bound NumLock token, which is in the result exactly
    when NumLock reads on. *)
Theorem mask_to_names_altgr_down (gks : KeyState) (k : Keyboard) (mask : Z) (a : string) :
  EMULATE_ALTGR = true ->
  in_0_1 (gks VK_RMENU) = false ->
  altgr_modifier k = Some a -> a <> "" ->
  NoDup (super_mask_to_names mask) ->
  (forall x : string,
     (forall n, num_lock_modifier k = Some n -> n <> "" -> x <> n) ->
     x ∈ mask_to_names gks k mask
     <-> (x = a \/ x ∈ super_mask_to_names mask)
         /\ x ∉ ["mod1"; "mod2"; "control"])
  /\ (forall n : string,
        num_lock_modifier k = Some n -> n <> "" ->
        n ∈ mask_to_names gks k mask <-> gks VK_NUMLOCK <> 0).
Proof.
  intros He Hdown Ha Hne Hbase.
  assert (altgr_step gks k (super_mask_to_names mask)
          = remove_present ["mod1"; "mod2"; "control"]
              (append_missing [a] (super_mask_to_names mask))) as Hstep.
  { unfold altgr_step. rewrite He, Hdown. simpl. by apply AltGr_modifiers_pressed. }
  assert (NoDup (append_missing [a] (super_mask_to_names mask))) as Hadd
    by by apply append_missing_NoDup.
  split.
  - intros x Hx. rewrite mask_to_names_steps, numlock_step_other by done.
    rewrite Hstep, remove_present_iff by done.
    rewrite append_missing_elem_of. set_solver.
  - intros n Hn Hn'. rewrite mask_to_names_steps.
    apply numlock_step_token; [done..|].
    rewrite Hstep. by apply remove_present_NoDup.
Qed.

(** C3 (amended): [mask_to_names] is the NumLock correction applied after
    the AltGr correction applied after the base decomposition; so when
    NumLock reads on and a NumLock token is bound, that token is in the
    result, also when Right Alt is down and the AltGr correction strips
    that very token. *)
Theorem mask_to_names_order (gks : KeyState) (k : Keyboard) (mask : Z) :
  mask_to_names gks k mask
  = numlock_step gks k (altgr_step gks k (super_mask_to_names mask))
  /\ (forall n : string,
        num_lock_modifier k = Some n -> n <> "" -> gks VK_NUMLOCK <> 0 ->
        n ∈ mask_to_names gks k mask).
Proof.
  split; [apply mask_to_names_steps|].
  intros n Hn Hne Hon. rewrite mask_to_names_steps. by apply numlock_step_on.
Qed.

(** C6 (amended): without a token bound to Num_Lock the NumLock correction
    changes nothing.  Without a token bound to AltGr the AltGr correction
    injects nothing, and it changes nothing when Right Alt reads up or the
    emulation is disabled; when the emulation is enabled and Right Alt
    reads down it still strips "mod1", "mod2" and "control", and only
    these: of a base decomposition without repeated tokens it leaves the
    other tokens, in their order, and none of the three. *)
Theorem unbound_modifier_steps (gks : KeyState) (k : Keyboard) (mask : Z) :
  let base := super_mask_to_names mask in
  (truthy (num_lock_modifier k) = false ->
     mask_to_names gks k mask = altgr_step gks k base)
  /\ (truthy (altgr_modifier k) = false ->
        (forall x, x ∈ altgr_step gks k base -> x ∈ base)
        /\ (forall x, x ∈ base -> x ∉ ["mod1"; "mod2"; "control"] ->
                      x ∈ altgr_step gks k base)
        /\ (in_0_1 (gks VK_RMENU) = true \/ EMULATE_ALTGR = false ->
              altgr_step gks k base = base
              /\ mask_to_names gks k mask = numlock_step gks k base)
        /\ (EMULATE_ALTGR = true -> in_0_1 (gks VK_RMENU) = false ->
            NoDup base ->
              altgr_step gks k base
              = filter (fun x => x ∉ ["mod1"; "mod2"; "control"]) base
              /\ (forall x, x ∈ ["mod1"; "mod2"; "control"] ->
                            x ∉ altgr_step gks k base))).
Proof.
  intros base. split.
  - intros Hf. rewrite mask_to_names_steps. fold base. unfold numlock_step.
    destruct (num_lock_modifier k) as [n|]; [|done]. by rewrite Hf.
  - intros Hf. split_and!.
    + intros x. unfold altgr_step.
      destruct (EMULATE_ALTGR && negb (in_0_1 (gks VK_RMENU))); [|done].
      rewrite AltGr_modifiers_unbound by done. apply remove_present_elem_of.
    + intros x Hx Hc. unfold altgr_step.
      destruct (EMULATE_ALTGR && negb (in_0_1 (gks VK_RMENU))); [|done].
      rewrite AltGr_modifiers_unbound by done. by apply remove_present_other.
    + intros Hup.
      assert (altgr_step gks k base = base) as Hid.
      { unfold altgr_step. destruct Hup as [-> | ->]; [|done].
        by rewrite andb_false_r. }
      split; [done|]. rewrite mask_to_names_steps. fold base. by rewrite Hid.
    + intros He Hdown Hbase.
      assert (altgr_step gks k base
              = filter (fun x => x ∉ ["mod1"; "mod2"; "control"]) base) as Hstrip.
      { unfold altgr_step. rewrite He, Hdown. simpl.
        rewrite AltGr_modifiers_unbound by done. by apply remove_present_filter. }
      split; [done|]. intros x Hx. rewrite Hstrip.
      intros [Hout _]%list_elem_of_filter. by apply Hout.
Qed.

(** ** The delayed [Control_L] *)

Lemma set_modifiers_same (e : KeyEvent) : set_modifiers (modifiers e ++ []) e = e.
Proof. destruct e. unfold set_modifiers. simpl. by rewrite app_nil_r. Qed.

(** A key that is not [Delete] goes through the first part of
    [process_key_event] with its identity, gaining ['mod4'] under Hyper. *)
Lemma translate_hyper_other (key_event : KeyEvent) (w : World) :
  keyname key_event <> "Delete" ->
  translate_hyper key_event w
  = (set_modifiers (modifiers key_event
                    ++ if hyper_modifier (self w) then ["mod4"] else []) key_event, w).
Proof.
  intros Hne. unfold translate_hyper.
  destruct (decide (keyname key_event = "Delete")); [done|].
  destruct (hyper_modifier (self w)); [done|].
  by rewrite set_modifiers_same.
Qed.

Lemma process_key_event_Control_L (gks : KeyState) (cb : Callback) (wid : Z)
    (key_event : KeyEvent) (w : World) :
  altgr_emulated (self w) = true ->
  keyname key_event = "Control_L" ->
  process_key_event gks cb wid key_event w
  = if in_0_1 (gks VK_RMENU) then
      timeout_add EMULATE_ALTGR_CONTROL_KEY_DELAY
        (set_self (set_delayed_event
           (Some (cb, wid,
                  set_modifiers (modifiers key_event
                                 ++ if hyper_modifier (self w) then ["mod4"] else [])
                    key_event)) (self w)) w)
    else w.
Proof.
  intros Hgate Hname. unfold process_key_event.
  rewrite (bool_decide_eq_false_2 (keyname key_event = "VoidSymbol"))
    by (rewrite Hname; discriminate).
  rewrite andb_false_r.
  rewrite translate_hyper_other by (rewrite Hname; discriminate).
  rewrite Hgate. simpl.
  destruct (decide (keyname key_event = "Control_L")); [done|contradiction].
Qed.

Lemma send_delayed_key_idle (gks : KeyState) (w : World) :
  delayed_event (self w) = None -> send_delayed_key gks w = w.
Proof. intros Hd. unfold send_delayed_key. by rewrite Hd. Qed.

Lemma timeout_fire_idle_sent (gks : KeyState) (w : World) :
  delayed_event (self w) = None ->
  sent (timeout_fire gks w) = sent w
  /\ delayed_event (self (timeout_fire gks w)) = None.
Proof.
  intros Hd. unfold timeout_fire. destruct (timeouts w); [done|].
  by rewrite send_delayed_key_idle.
Qed.


(** C9: an event with [keyval] 16777215 and [keyname] "VoidSymbol" is
    dropped: the world after [process_key_event] is the world before it, so
    nothing is forwarded and the Hyper flag, the pending event and the
    timeouts are what they were. *)
Theorem process_key_event_VoidSymbol (gks : KeyState) (cb : Callback) (wid : Z)
    (key_event : KeyEvent) (w : World) :
  keyval key_event = 16777215 ->
  keyname key_event = "VoidSymbol" ->
  process_key_event gks cb wid key_event w = w.
Proof.
  intros Hval Hname. unfold process_key_event.
  rewrite Hval, Hname. reflexivity.
Qed.


(** ** [Alt_R] and the modifier refresh *)

Lemma set_delayed_event_None_idle (w : World) :
  delayed_event (self w) = None ->
  set_self (set_delayed_event None (self w)) w = w.
Proof.
  destruct w as [k t ts s]. destruct k. simpl. intros ->. reflexivity.
Qed.

(** What [process_key_event] does with an [Alt_R] event under AltGr
    emulation: the slot is emptied without a delivery and the event goes
    downstream with its identity erased. *)
Lemma process_key_event_Alt_R (gks : KeyState) (cb : Callback) (wid : Z)
    (key_event : KeyEvent) (w : World) :
  altgr_emulated (self w) = true ->
  keyname key_event = "Alt_R" ->
  process_key_event gks cb wid key_event w
  = super_process_key_event cb wid
      (mkKeyEvent
         (AltGr_modifiers (self w)
            (modifiers key_event ++ if hyper_modifier (self w) then ["mod4"] else [])
            true)
         "" (-1) (-1) (-1) "" (pressed key_event))
      (set_self (set_delayed_event None (self w)) w).
Proof.
  intros Hgate Hname. unfold process_key_event.
  rewrite (bool_decide_eq_false_2 (keyname key_event = "VoidSymbol"))
    by (rewrite Hname; discriminate).
  rewrite andb_false_r.
  rewrite translate_hyper_other by (rewrite Hname; discriminate).
  rewrite Hgate. simpl.
  destruct (decide (keyname key_event = "Control_L")) as [E|_];
    [rewrite Hname in E; discriminate|].
  destruct (decide (keyname key_event = "Alt_R")); [|contradiction].
  destruct (in_0_1 (gks VK_RMENU)) eqn:Hup.
  - rewrite send_delayed_key_idle by done. reflexivity.
  - unfold send_delayed_key. rewrite Hup.
    destruct (delayed_event (self w)) as [[[cb' wid'] e']|] eqn:Hd; [reflexivity|].
    by rewrite set_delayed_event_None_idle.
Qed.


(** ** A [Control_L] followed by an [Alt_R] *)

Lemma translate_hyper_keyname (key_event : KeyEvent) (w : World) :
  keyname (translate_hyper key_event w).1
  = if decide (keyname key_event = "Delete") then "Hyper_L" else keyname key_event.
Proof.
  unfold translate_hyper. destruct (decide (keyname key_event = "Delete")); [done|].
  by destruct (hyper_modifier (self w)).
Qed.

Lemma translate_hyper_world (key_event : KeyEvent) (w : World) :
  let w' := (translate_hyper key_event w).2 in
  delayed_event (self w') = delayed_event (self w)
  /\ sent w' = sent w /\ timeouts w' = timeouts w
  /\ KEY_TRANSLATIONS w' = KEY_TRANSLATIONS w.
Proof.
  unfold translate_hyper. destruct (decide (keyname key_event = "Delete")); [done|].
  by destruct (hyper_modifier (self w)).
Qed.

(** With an empty slot, an input other than a [Control_L] key event leaves
    the slot empty and forwards no event named [Control_L]. *)
Lemma step_idle (i : Input) (w : World) :
  delayed_event (self w) = None ->
  ~ Control_L_input i ->
  delayed_event (self (step w i)) = None
  /\ exists later : list Delivery,
       sent (step w i) = sent w ++ later
       /\ Forall (fun d : Delivery => keyname d.2 <> "Control_L") later.
Proof.
  intros Hidle Hi. destruct i as [gks cb wid e|gks|mappings]; simpl in *.
  - unfold process_key_event.
    destruct ((keyval e =? 2 ^ 24 - 1) && bool_decide (keyname e = "VoidSymbol")).
    { split; [done|]. exists []. by rewrite app_nil_r. }
    pose proof (translate_hyper_keyname e w) as Hk.
    pose proof (translate_hyper_world e w) as (Hd & Hs & _).
    destruct (translate_hyper e w) as [e' w']. simpl in *.
    rewrite Hidle in Hd.
    assert (keyname e' <> "Control_L") as Hne.
    { rewrite Hk. by destruct (decide (keyname e = "Delete")). }
    destruct (altgr_emulated (self w')).
    + destruct (decide (keyname e' = "Control_L")); [done|].
      destruct (decide (keyname e' = "Alt_R")).
      * assert (delayed_event
                  (self (if in_0_1 (gks VK_RMENU)
                         then set_self (set_delayed_event None (self w')) w'
                         else w')) = None) as Hd'
          by by destruct (in_0_1 (gks VK_RMENU)).
        rewrite send_delayed_key_idle by done. simpl. split; [done|].
        eexists. split.
        { destruct (in_0_1 (gks VK_RMENU)); simpl; rewrite Hs; reflexivity. }
        by repeat constructor.
      * rewrite send_delayed_key_idle by done. simpl. split; [done|].
        eexists. split; [by rewrite Hs|]. by repeat constructor.
    + rewrite send_delayed_key_idle by done. simpl. split; [done|].
      eexists. split; [by rewrite Hs|]. by repeat constructor.
  - destruct (timeout_fire_idle_sent gks w Hidle) as [Hs Hd].
    split; [done|]. exists []. by rewrite app_nil_r.
  - split; [done|]. exists []. by rewrite app_nil_r.
Qed.

Lemma run_idle (inputs : list Input) (w : World) :
  delayed_event (self w) = None ->
  Forall (fun i => ~ Control_L_input i) inputs ->
  exists later : list Delivery,
    sent (run w inputs) = sent w ++ later
    /\ Forall (fun d : Delivery => keyname d.2 <> "Control_L") later.
Proof.
  revert w. induction inputs as [|i inputs IH]; intros w Hidle Hin; simpl.
  - exists []. by rewrite app_nil_r.
  - apply Forall_cons in Hin as [Hi Hin].
    destruct (step_idle i w Hidle Hi) as (Hd & l1 & Hs1 & Hl1).
    destruct (IH (step w i) Hd Hin) as (l2 & Hs2 & Hl2).
    exists (l1 ++ l2). split.
    + change (run w (i :: inputs)) with (run (step w i) inputs).
      rewrite Hs2, Hs1. by rewrite app_assoc.
    + by apply Forall_app.
Qed.

(** What the AltGr emulation reads of the keyboard object does not depend
    on the slot. *)
Lemma AltGr_modifiers_binding (k k' : Keyboard) (l : list string) (p : bool) :
  altgr_modifier k = altgr_modifier k' ->
  AltGr_modifiers k l p = AltGr_modifiers k' l p.
Proof. unfold AltGr_modifiers. by intros ->. Qed.

Lemma altgr_emulated_slot (k k' : Keyboard) :
  set_delayed_event None k = set_delayed_event None k' ->
  altgr_emulated k = altgr_emulated k'.
Proof.
  intros E. unfold altgr_emulated.
  apply (f_equal altgr_modifier) in E as Ha.
  apply (f_equal modifier_mappings) in E as Hm. simpl in Ha, Hm.
  by rewrite Ha, Hm.
Qed.

(** A key event that is held back leaves everything but the slot and the
    timeouts as it was, and removes no timeout. *)
Lemma step_held_back (i : Input) (w : World) :
  altgr_emulated (self w) = true ->
  held_back_input i ->
  sent (step w i) = sent w
  /\ set_delayed_event None (self (step w i)) = set_delayed_event None (self w)
  /\ KEY_TRANSLATIONS (step w i) = KEY_TRANSLATIONS w
  /\ exists more : list Z, timeouts (step w i) = timeouts w ++ more.
Proof.
  intros Hgate Hi. destruct i as [gks cb wid e|gks|mappings]; simpl in *; [|done..].
  destruct Hi as [[Hval Hname]|Hname].
  - unfold process_key_event. rewrite Hval, Hname. simpl.
    split_and!; [done..|]. exists []. by rewrite app_nil_r.
  - rewrite process_key_event_Control_L by done.
    destruct (in_0_1 (gks VK_RMENU)); simpl.
    + split_and!; [done..|]. by eexists.
    + split_and!; [done..|]. exists []. by rewrite app_nil_r.
Qed.

Lemma run_held_back (inputs : list Input) (w : World) :
  altgr_emulated (self w) = true ->
  Forall held_back_input inputs ->
  sent (run w inputs) = sent w
  /\ set_delayed_event None (self (run w inputs)) = set_delayed_event None (self w)
  /\ KEY_TRANSLATIONS (run w inputs) = KEY_TRANSLATIONS w
  /\ exists more : list Z, timeouts (run w inputs) = timeouts w ++ more.
Proof.
  revert w. induction inputs as [|i inputs IH]; intros w Hgate Hin.
  { split_and!; [done..|]. exists []. by rewrite app_nil_r. }
  apply Forall_cons in Hin as [Hi Hin].
  destruct (step_held_back i w Hgate Hi) as (Hs & Hk & Ht & more & Hmore).
  change (run w (i :: inputs)) with (run (step w i) inputs).
  destruct (IH (step w i)) as (Hs' & Hk' & Ht' & more' & Hmore'); [|done|].
  - by rewrite (altgr_emulated_slot _ _ Hk).
  - split_and!; [by rewrite Hs'|by rewrite Hk'|by rewrite Ht'|].
    exists (more ++ more'). by rewrite Hmore', Hmore, app_assoc.
Qed.

(** C1 (amended): under AltGr emulation, a [Control_L] event that arrives
    while Right Alt reads up is held back.  When the next key event that is
    neither dropped as a "VoidSymbol" nor a further [Control_L] is an
    [Alt_R], and no timeout fires and no modifier mappings arrive before it,
    nothing is forwarded up to the [Alt_R]; the [Alt_R] forwards exactly
    one event, the modifier refresh made from it, and empties the slot.
    The world after the [Alt_R] holds nothing of the [Control_L] event but
    timeouts, so that event is never forwarded; and no event named
    [Control_L] is forwarded at all, whatever comes next, as long as no
    further [Control_L] event is fed in. *)
Theorem Control_L_then_Alt_R (gks1 gks2 : KeyState) (cb1 cb2 : Callback)
    (wid1 wid2 : Z) (control_event alt_event : KeyEvent) (w : World)
    (between rest : list Input) :
  altgr_emulated (self w) = true ->
  keyname control_event = "Control_L" ->
  in_0_1 (gks1 VK_RMENU) = true ->
  Forall held_back_input between ->
  keyname alt_event = "Alt_R" ->
  Forall (fun i => ~ Control_L_input i) rest ->
  let w1 := process_key_event gks1 cb1 wid1 control_event w in
  let w1' := run w1 between in
  let w2 := process_key_event gks2 cb2 wid2 alt_event w1' in
  let refresh :=
    mkKeyEvent
      (AltGr_modifiers (self w)
         (modifiers alt_event ++ if hyper_modifier (self w) then ["mod4"] else [])
         true)
      "" (-1) (-1) (-1) "" (pressed alt_event) in
  sent w1 = sent w
  /\ pending w1
     = [(cb1, wid1,
         set_modifiers (modifiers control_event
                        ++ if hyper_modifier (self w) then ["mod4"] else [])
           control_event)]
  /\ sent w1' = sent w
  /\ sent w2 = sent w ++ [(cb2, wid2, refresh)]
  /\ pending w2 = []
  /\ (exists more : list Z,
        w2 = mkWorld (set_delayed_event None (self w)) (KEY_TRANSLATIONS w)
               (timeouts w ++ EMULATE_ALTGR_CONTROL_KEY_DELAY :: more)
               (sent w ++ [(cb2, wid2, refresh)]))
  /\ exists later : list Delivery,
       sent (run w2 rest) = sent w ++ [(cb2, wid2, refresh)] ++ later
       /\ Forall (fun d : Delivery => keyname d.2 <> "Control_L") later.
Proof.
  intros Hgate Hc Hup Hbetween Ha Hrest w1 w1' w2 refresh.
  assert (w1 = timeout_add EMULATE_ALTGR_CONTROL_KEY_DELAY
                 (set_self (set_delayed_event
                    (Some (cb1, wid1,
                           set_modifiers (modifiers control_event
                             ++ if hyper_modifier (self w) then ["mod4"] else [])
                             control_event)) (self w)) w)) as Hw1.
  { subst w1. rewrite process_key_event_Control_L by done. by rewrite Hup. }
  assert (altgr_emulated (self w1) = true) as Hgate1 by by rewrite Hw1.
  destruct (run_held_back between w1 Hgate1 Hbetween)
    as (Hs1' & Hk1' & Ht1' & more & Hmore).
  fold w1' in Hs1', Hk1', Ht1', Hmore.
  assert (set_delayed_event None (self w1') = set_delayed_event None (self w)) as Hk
    by (rewrite Hk1', Hw1; reflexivity).
  assert (sent w1' = sent w) as Hsent1' by (rewrite Hs1', Hw1; reflexivity).
  assert (w2 = mkWorld (set_delayed_event None (self w)) (KEY_TRANSLATIONS w)
                 (timeouts w ++ EMULATE_ALTGR_CONTROL_KEY_DELAY :: more)
                 (sent w ++ [(cb2, wid2, refresh)])) as Hw2.
  { subst w2. rewrite process_key_event_Alt_R;
      [|by rewrite (altgr_emulated_slot _ _ Hk)|done].
    subst refresh.
    apply (f_equal altgr_modifier) in Hk as Hbinding.
    apply (f_equal hyper_modifier) in Hk as Hhyper. simpl in Hbinding, Hhyper.
    rewrite Hhyper, (AltGr_modifiers_binding _ (self w)) by done.
    unfold super_process_key_event, set_self. simpl.
    rewrite Hk, Ht1', Hmore, Hsent1', Hw1. simpl. by rewrite <- app_assoc. }
  assert (sent w2 = sent w ++ [(cb2, wid2, refresh)]) as Hs2 by by rewrite Hw2.
  split_and!.
  - by rewrite Hw1.
  - by rewrite Hw1.
  - done.
  - done.
  - by rewrite Hw2.
  - by exists more.
  - destruct (run_idle rest w2) as (later & Hs & Hl); [by rewrite Hw2|done|].
    exists later. split; [|done]. rewrite Hs, Hs2. by rewrite <- app_assoc.
Qed.

(** ** The pending slot and the timeouts *)

Lemma send_delayed_key_effect (gks : KeyState) (w : World) :
  delayed_event (self (send_delayed_key gks w)) = None
  /\ timeouts (send_delayed_key gks w) = timeouts w
  /\ KEY_TRANSLATIONS (send_delayed_key gks w) = KEY_TRANSLATIONS w.
Proof.
  unfold send_delayed_key.
  destruct (delayed_event (self w)) as [[[cb wid] e]|] eqn:Hd; [|done].
  by destruct (in_0_1 (gks VK_RMENU)).
Qed.

(** Every step keeps a timeout outstanding for a pending event. *)
Lemma step_pending_timeout (i : Input) (w : World) :
  (length (pending w) <= length (timeouts w))%nat ->
  (length (pending (step w i)) <= length (timeouts (step w i)))%nat.
Proof.
  intros Hw. destruct i as [gks cb wid e|gks|mappings]; simpl.
  - unfold process_key_event.
    destruct ((keyval e =? 2 ^ 24 - 1) && bool_decide (keyname e = "VoidSymbol"));
      [done|].
    pose proof (translate_hyper_world e w) as (Hd & _ & Ht & _).
    destruct (translate_hyper e w) as [e' w']. simpl in *.
    assert (length (pending w') <= length (timeouts w'))%nat as Hw'
      by (unfold pending; rewrite Hd, Ht; exact Hw).
    assert (forall (e'' : KeyEvent) (w'' : World),
              length (pending (super_process_key_event cb wid e''
                                 (send_delayed_key gks w''))) <= length (timeouts
                       (super_process_key_event cb wid e''
                          (send_delayed_key gks w'')))
            )%nat as Hflush.
    { intros e'' w''. destruct (send_delayed_key_effect gks w'') as (Hn & _).
      unfold pending. simpl. rewrite Hn. simpl. lia. }
    destruct (altgr_emulated (self w')); [|apply Hflush].
    destruct (decide (keyname e' = "Control_L")).
    + destruct (in_0_1 (gks VK_RMENU)); [|done].
      unfold pending. simpl. rewrite length_app. simpl. lia.
    + destruct (decide (keyname e' = "Alt_R")); apply Hflush.
  - unfold timeout_fire. destruct (timeouts w) as [|t ts] eqn:Hts.
    { rewrite Hts. exact Hw. }
    destruct (send_delayed_key_effect gks
                (mkWorld (self w) (KEY_TRANSLATIONS w) ts (sent w))) as (Hn & _).
    unfold pending. rewrite Hn. simpl. lia.
  - exact Hw.
Qed.

Lemma reachable_pending_timeout (w : World) :
  reachable w -> (length (pending w) <= length (timeouts w))%nat.
Proof.
  intros (layouts & w0 & inputs & ->).
  assert (length (pending (init_vars layouts w0))
          <= length (timeouts (init_vars layouts w0)))%nat as Hinit
    by (unfold pending; simpl; lia).
  revert Hinit. generalize (init_vars layouts w0).
  induction inputs as [|i inputs IH]; intros w Hw; simpl; [done|].
  apply IH. by apply step_pending_timeout.
Qed.

Lemma send_delayed_key_sent (gks : KeyState) (w : World) :
  sent (send_delayed_key gks w)
  = sent w ++ (if in_0_1 (gks VK_RMENU) then pending w else [])
  /\ pending (send_delayed_key gks w) = []
  /\ timeouts (send_delayed_key gks w) = timeouts w
  /\ hyper_modifier (self (send_delayed_key gks w)) = hyper_modifier (self w).
Proof.
  unfold send_delayed_key, pending.
  destruct (delayed_event (self w)) as [[[cb wid] e]|] eqn:Hd.
  - destruct (in_0_1 (gks VK_RMENU)); simpl; by rewrite ?app_nil_r.
  - rewrite Hd. by destruct (in_0_1 (gks VK_RMENU)); rewrite app_nil_r.
Qed.

(** A key that the AltGr emulation does not look at: the slot is flushed
    and the key follows. *)
Lemma process_key_event_plain (gks : KeyState) (cb : Callback) (wid : Z)
    (key_event : KeyEvent) (w : World) :
  keyname key_event ∉ ["VoidSymbol"; "Delete"] ->
  altgr_emulated (self w) = false \/ keyname key_event ∉ ["Control_L"; "Alt_R"] ->
  process_key_event gks cb wid key_event w
  = super_process_key_event cb wid
      (set_modifiers (modifiers key_event
                      ++ if hyper_modifier (self w) then ["mod4"] else []) key_event)
      (send_delayed_key gks w).
Proof using Type.
  clear super_mask_to_names super_init_vars super_modifier_keys WIN32_LAYOUTS
    WIN32_KEYBOARDS.
  intros Hname Hplain. unfold process_key_event.
  rewrite (bool_decide_eq_false_2 (keyname key_event = "VoidSymbol")) by set_solver.
  rewrite andb_false_r.
  rewrite translate_hyper_other by set_solver.
  destruct (altgr_emulated (self w)); [|done].
  destruct Hplain as [|Hplain]; [done|]. simpl.
  destruct (decide (keyname key_event = "Control_L")); [set_solver|].
  destruct (decide (keyname key_event = "Alt_R")); [set_solver|done].
Qed.

(** C4 (amended): the slot holds at most one pending record, and in every
    reachable world a pending record has a timeout outstanding.  When a
    [Control_L] event arrives while another is pending, under AltGr
    emulation and with Right Alt read as up it replaces the pending one
    without a delivery, and the world that results is the one that an
    empty slot would have given, so the earlier event is gone for good;
    the timeout of the earlier event stays scheduled, the press adds one
    more to those outstanding.  Under AltGr emulation and with Right Alt
    read as down the event is swallowed and the world stays as it was: the
    earlier event is still pending, and the next timeout to fire delivers
    it if Right Alt reads up then.  Without AltGr emulation the event is
    an ordinary key: the slot is flushed, the earlier event being
    delivered if Right Alt reads up, and the new event is forwarded at
    once. *)
Theorem pending_superseded :
  (forall w : World,
     reachable w ->
     (length (pending w) <= 1)%nat
     /\ (length (pending w) <= length (timeouts w))%nat)
  /\ (forall (gks : KeyState) (cb : Callback) (wid : Z) (key_event : KeyEvent)
             (w : World) (earlier : Delivery),
        keyname key_event = "Control_L" ->
        pending w = [earlier] ->
        let w' := process_key_event gks cb wid key_event w in
        let held : Delivery :=
          (cb, wid,
           set_modifiers (modifiers key_event
                          ++ if hyper_modifier (self w) then ["mod4"] else [])
             key_event) in
        (altgr_emulated (self w) = true -> in_0_1 (gks VK_RMENU) = true ->
           sent w' = sent w
           /\ pending w' = [held]
           /\ w' = process_key_event gks cb wid key_event
                     (set_self (set_delayed_event None (self w)) w)
           /\ timeouts w' = timeouts w ++ [EMULATE_ALTGR_CONTROL_KEY_DELAY])
        /\ (altgr_emulated (self w) = true -> in_0_1 (gks VK_RMENU) = false ->
              w' = w
              /\ (reachable w ->
                  forall gks' : KeyState,
                    sent (timeout_fire gks' w')
                    = sent w ++ (if in_0_1 (gks' VK_RMENU) then [earlier] else [])
                    /\ pending (timeout_fire gks' w') = []))
        /\ (altgr_emulated (self w) = false ->
              sent w'
              = sent w ++ (if in_0_1 (gks VK_RMENU) then [earlier] else []) ++ [held]
              /\ pending w' = []
              /\ timeouts w' = timeouts w)).
Proof.
  split.
  - intros w Hw. split; [|by apply reachable_pending_timeout].
    unfold pending. destruct (delayed_event (self w)); simpl; lia.
  - intros gks cb wid key_event w earlier Hname Hpending w' held.
    split_and!.
    + intros Hgate Hup. subst w' held.
      rewrite !process_key_event_Control_L by done. rewrite Hup. done.
    + intros Hgate Hdown.
      assert (w' = w) as Hw'.
      { subst w'. rewrite process_key_event_Control_L by done. by rewrite Hdown. }
      split; [done|]. intros Hreach gks'. rewrite Hw'.
      pose proof (reachable_pending_timeout w Hreach) as Hlen.
      rewrite Hpending in Hlen. unfold timeout_fire.
      destruct (timeouts w) as [|t ts]; [simpl in Hlen; lia|].
      destruct (send_delayed_key_sent gks'
                  (mkWorld (self w) (KEY_TRANSLATIONS w) ts (sent w)))
        as (Hs & Hp & _).
      split; [|done]. rewrite Hs. simpl. f_equal.
      change (pending (mkWorld (self w) (KEY_TRANSLATIONS w) ts (sent w)))
        with (pending w). by rewrite Hpending.
    + intros Hgate. subst w' held.
      rewrite process_key_event_plain;
        [|rewrite Hname; by_computation|by left].
      destruct (send_delayed_key_sent gks w) as (Hs & Hp & Ht & _).
      split_and!.
      * simpl. rewrite Hs, Hpending. by rewrite <- app_assoc.
      * exact Hp.
      * exact Ht.
Qed.

(** ** The key translation table *)



(** ** [AltGr_modifiers] and [mask_to_names] on lists without repeats *)

Lemma append_missing_one (a : string) (l : list string) :
  append_missing [a] l = if decide (a ∈ l) then l else l ++ [a].
Proof. reflexivity. Qed.

Lemma filter_filter_same (P : string -> Prop) `{forall x, Decision (P x)}
    (l : list string) :
  filter P (filter P l) = filter P l.
Proof.
  apply filter_all, Forall_forall. intros y Hy.
  by apply list_elem_of_filter in Hy as [? _].
Qed.

(** X5: on a list without repeated tokens [AltGr_modifiers] is a filter
    that keeps the order of the list.  With a bound token and [pressed] it
    appends the token when missing and drops "mod1", "mod2" and "control";
    with a bound token and not [pressed] it drops these three and the
    token; without a bound token it drops the three. *)
Theorem AltGr_modifiers_filter (k : Keyboard) (l : list string) (p : bool) :
  NoDup l ->
  AltGr_modifiers k l p
  = match altgr_modifier k with
    | Some a =>
        if decide (a = "") then filter (fun y => y ∉ ["mod1"; "mod2"; "control"]) l
        else if p then
          filter (fun y => y ∉ ["mod1"; "mod2"; "control"])
            (if decide (a ∈ l) then l else l ++ [a])
        else filter (fun y => y ∉ ["mod1"; "mod2"; "control"; a]) l
    | None => filter (fun y => y ∉ ["mod1"; "mod2"; "control"]) l
    end.
Proof.
  intros Hl. unfold AltGr_modifiers.
  destruct (altgr_modifier k) as [a|]; [|by apply remove_present_filter].
  simpl. destruct (decide (a = "")); [by apply remove_present_filter|].
  destruct p.
  - rewrite remove_present_filter by by apply append_missing_NoDup.
    by rewrite append_missing_one.
  - by apply remove_present_filter.
Qed.

Lemma AltGr_modifiers_NoDup (k : Keyboard) (l : list string) (p : bool) :
  NoDup l -> NoDup (AltGr_modifiers k l p).
Proof.
  intros Hl. unfold AltGr_modifiers.
  destruct (altgr_modifier k) as [a|]; [|by apply remove_present_NoDup].
  destruct (truthy (Some a)); [|by apply remove_present_NoDup].
  destruct p; apply remove_present_NoDup; [by apply append_missing_NoDup|done].
Qed.

(** X6: applying [AltGr_modifiers] a second time to its own result changes
    nothing, for a list without repeated tokens. *)
Theorem AltGr_modifiers_idempotent (k : Keyboard) (l : list string) (p : bool) :
  NoDup l ->
  AltGr_modifiers k (AltGr_modifiers k l p) p = AltGr_modifiers k l p.
Proof.
  intros Hl.
  assert (forall (clear l' : list string),
            NoDup l' ->
            remove_present clear (remove_present clear l') = remove_present clear l')
    as Hclear.
  { intros clear l' Hl'.
    rewrite (remove_present_filter clear (remove_present clear l'))
      by by apply remove_present_NoDup.
    rewrite (remove_present_filter clear l') by done. apply filter_filter_same. }
  unfold AltGr_modifiers.
  destruct (altgr_modifier k) as [a|]; [|by apply Hclear].
  destruct (truthy (Some a)); [|by apply Hclear].
  destruct p; [|by apply Hclear].
  set (C := ["mod1"; "mod2"; "control"]).
  change (append_missing ([] ++ [a])) with (append_missing [a]).
  assert (NoDup (append_missing [a] l)) as Hadd by by apply append_missing_NoDup.
  assert (a ∈ append_missing [a] l) as Ha
    by (apply append_missing_elem_of; right; by left).
  rewrite (remove_present_filter C (append_missing [a] l)) by done.
  set (r := filter (fun y => y ∉ C) (append_missing [a] l)).
  assert (NoDup r) as Hr by by apply NoDup_filter.
  rewrite remove_present_filter by by apply append_missing_NoDup.
  rewrite append_missing_one.
  destruct (decide (a ∈ r)) as [Hin|Hout].
  - by apply filter_filter_same.
  - rewrite filter_app. subst r. rewrite filter_filter_same.
    rewrite filter_cons_False, filter_nil; [by rewrite app_nil_r|].
    intros HC. apply Hout. by apply list_elem_of_filter.
Qed.

Lemma numlock_step_NoDup (gks : KeyState) (k : Keyboard) (l : list string) :
  NoDup l -> NoDup (numlock_step gks k l).
Proof.
  intros Hl. unfold numlock_step.
  destruct (num_lock_modifier k) as [n|]; [|done].
  destruct (truthy (Some n)); [|done].
  destruct (decide (gks VK_NUMLOCK = 0)), (decide (n ∈ l)); try done.
  - by apply list_remove_first_NoDup.
  - apply NoDup_app. split_and!; [done|set_solver|apply NoDup_singleton].
Qed.

Lemma altgr_step_NoDup (gks : KeyState) (k : Keyboard) (l : list string) :
  NoDup l -> NoDup (altgr_step gks k l).
Proof.
  intros Hl. unfold altgr_step.
  destruct (EMULATE_ALTGR && negb (in_0_1 (gks VK_RMENU))); [|done].
  by apply AltGr_modifiers_NoDup.
Qed.

(** X7: [mask_to_names] never returns a token twice when the base
    decomposition does not, and then the bound NumLock token is in the
    result exactly when the live NumLock state reads on, whatever the mask
    and whatever Right Alt reads. *)
Theorem mask_to_names_NoDup (gks : KeyState) (k : Keyboard) (mask : Z) :
  NoDup (super_mask_to_names mask) ->
  NoDup (mask_to_names gks k mask)
  /\ (forall n : string,
        num_lock_modifier k = Some n -> n <> "" ->
        n ∈ mask_to_names gks k mask <-> gks VK_NUMLOCK <> 0).
Proof.
  intros Hbase. rewrite mask_to_names_steps. split.
  - by apply numlock_step_NoDup, altgr_step_NoDup.
  - intros n Hn Hne. apply numlock_step_token; [done..|by apply altgr_step_NoDup].
Qed.

(** ** More on [process_key_event] and the timeouts *)

(** X8: a key that is neither "VoidSymbol", "Delete", nor (under AltGr
    emulation) "Control_L" or "Alt_R" is forwarded by its own call, after
    the pending event: a pending [Control_L] reaches the parent first when
    Right Alt reads up, and is dropped for good when Right Alt reads down.
    The slot is empty afterwards and no timeout is added. *)
Theorem process_key_event_flush (gks : KeyState) (cb : Callback) (wid : Z)
    (key_event : KeyEvent) (w : World) :
  keyname key_event ∉ ["VoidSymbol"; "Delete"] ->
  altgr_emulated (self w) = false \/ keyname key_event ∉ ["Control_L"; "Alt_R"] ->
  let w' := process_key_event gks cb wid key_event w in
  sent w'
  = sent w ++ (if in_0_1 (gks VK_RMENU) then pending w else [])
      ++ [(cb, wid,
           set_modifiers (modifiers key_event
                          ++ if hyper_modifier (self w) then ["mod4"] else [])
             key_event)]
  /\ pending w' = []
  /\ timeouts w' = timeouts w
  /\ hyper_modifier (self w') = hyper_modifier (self w).
Proof using Type.
  clear super_mask_to_names super_init_vars super_modifier_keys WIN32_LAYOUTS
    WIN32_KEYBOARDS.
  intros Hname Hplain w'. subst w'.
  rewrite process_key_event_plain by done.
  destruct (send_delayed_key_sent gks w) as (Hs & Hp & Ht & Hh).
  split_and!; simpl; [by rewrite Hs, <- app_assoc|exact Hp|exact Ht|exact Hh].
Qed.

(** X9: under AltGr emulation a [Control_L] event that arrives while Right
    Alt reads down is swallowed: nothing is forwarded, now or later, and
    nothing else changes. *)
Theorem Control_L_swallowed (gks : KeyState) (cb : Callback) (wid : Z)
    (key_event : KeyEvent) (w : World) :
  altgr_emulated (self w) = true ->
  keyname key_event = "Control_L" ->
  in_0_1 (gks VK_RMENU) = false ->
  process_key_event gks cb wid key_event w = w.
Proof.
  intros Hgate Hname Hdown.
  rewrite process_key_event_Control_L by done. by rewrite Hdown.
Qed.

Lemma process_key_event_Delete (gks : KeyState) (cb : Callback) (wid : Z)
    (key_event : KeyEvent) (w : World) :
  keyname key_event = "Delete" ->
  process_key_event gks cb wid key_event w
  = super_process_key_event cb wid
      (mkKeyEvent (modifiers key_event) "Hyper_L" 16777215 50 0
         (string_ key_event) (pressed key_event))
      (send_delayed_key gks
         (set_self (set_hyper_modifier (pressed key_event) (self w)) w)).
Proof.
  intros Hname. unfold process_key_event.
  rewrite (bool_decide_eq_false_2 (keyname key_event = "VoidSymbol"))
    by (rewrite Hname; discriminate).
  rewrite andb_false_r. unfold translate_hyper.
  destruct (decide (keyname key_event = "Delete")); [|contradiction].
  cbn [keyname].
  destruct (altgr_emulated _); [|done].
  destruct (decide ("Hyper_L" = "Control_L")); [discriminate|].
  by destruct (decide ("Hyper_L" = "Alt_R")).
Qed.

(** X10: a [Delete] event is the carrier of the Hyper modifier.  It is
    forwarded at once as [Hyper_L] with keyval 16777215, keycode 50 and
    group 0, after a flush of the slot, and sets the sticky flag to its
    [pressed] state; the next key that is not special is forwarded with
    "mod4" appended to its modifiers exactly when that [Delete] was a
    press. *)
Theorem Delete_carries_Hyper (gks1 gks2 : KeyState) (cb1 cb2 : Callback)
    (wid1 wid2 : Z) (delete key_event : KeyEvent) (w : World) :
  keyname delete = "Delete" ->
  keyname key_event ∉ ["VoidSymbol"; "Delete"; "Control_L"; "Alt_R"] ->
  let w1 := process_key_event gks1 cb1 wid1 delete w in
  let w2 := process_key_event gks2 cb2 wid2 key_event w1 in
  sent w1
  = sent w ++ (if in_0_1 (gks1 VK_RMENU) then pending w else [])
      ++ [(cb1, wid1,
           mkKeyEvent (modifiers delete) "Hyper_L" 16777215 50 0
             (string_ delete) (pressed delete))]
  /\ hyper_modifier (self w1) = pressed delete
  /\ sent w2
     = sent w1
       ++ [(cb2, wid2,
            set_modifiers (modifiers key_event
                           ++ if pressed delete then ["mod4"] else []) key_event)].
Proof using Type.
  clear super_mask_to_names super_init_vars super_modifier_keys WIN32_LAYOUTS
    WIN32_KEYBOARDS.
  intros Hdel Hkey w1 w2.
  assert (w1 = super_process_key_event cb1 wid1
                 (mkKeyEvent (modifiers delete) "Hyper_L" 16777215 50 0
                    (string_ delete) (pressed delete))
                 (send_delayed_key gks1
                    (set_self (set_hyper_modifier (pressed delete) (self w)) w)))
    as Hw1 by by apply process_key_event_Delete.
  destruct (send_delayed_key_sent gks1
              (set_self (set_hyper_modifier (pressed delete) (self w)) w))
    as (Hs & Hp & _ & Hh).
  assert (hyper_modifier (self w1) = pressed delete) as Hflag
    by (rewrite Hw1; simpl; by rewrite Hh).
  assert (pending w1 = []) as Hidle by (rewrite Hw1; exact Hp).
  split_and!.
  - rewrite Hw1. simpl. rewrite Hs. by rewrite <- app_assoc.
  - done.
  - subst w2. rewrite process_key_event_plain; [|set_solver|right; set_solver].
    destruct (send_delayed_key_sent gks2 w1) as (Hs2 & _).
    simpl. rewrite Hs2, Hidle, Hflag.
    by destruct (in_0_1 (gks2 VK_RMENU)); rewrite app_nil_r.
Qed.

(** X11: the timeout of a superseded [Control_L] is still in the queue, and
    when it fires it releases the later [Control_L]: after two presses
    with Right Alt up, the first firing forwards the second event (the
    first is never forwarded) while one more timeout than before the
    presses stays outstanding. *)
Theorem stale_timeout_releases_later_press (gks1 gks2 gks3 : KeyState)
    (cb1 cb2 : Callback) (wid1 wid2 : Z) (first second : KeyEvent) (w : World) :
  altgr_emulated (self w) = true ->
  keyname first = "Control_L" ->
  keyname second = "Control_L" ->
  in_0_1 (gks1 VK_RMENU) = true ->
  in_0_1 (gks2 VK_RMENU) = true ->
  in_0_1 (gks3 VK_RMENU) = true ->
  let w2 := process_key_event gks2 cb2 wid2 second
              (process_key_event gks1 cb1 wid1 first w) in
  let w3 := timeout_fire gks3 w2 in
  sent w2 = sent w
  /\ sent w3
     = sent w
       ++ [(cb2, wid2,
            set_modifiers (modifiers second
                           ++ if hyper_modifier (self w) then ["mod4"] else [])
              second)]
  /\ pending w3 = []
  /\ length (timeouts w3) = S (length (timeouts w)).
Proof.
  intros Hgate H1 H2 Hup1 Hup2 Hup3 w2 w3. subst w3 w2.
  rewrite (process_key_event_Control_L gks1) by done. rewrite Hup1.
  rewrite (process_key_event_Control_L gks2) by done. rewrite Hup2.
  unfold timeout_fire, timeout_add, send_delayed_key, pending. simpl.
  destruct (timeouts w) as [|t ts]; simpl; rewrite Hup3; simpl;
    rewrite ?length_app; simpl; split_and!; try done; lia.
Qed.

(** What one step sends is put after what was sent before, two deliveries
    at most. *)
Lemma step_sent (i : Input) (w : World) :
  exists later : list Delivery,
    sent (step w i) = sent w ++ later /\ (length later <= 2)%nat.
Proof.
  assert (forall (gks : KeyState) (cb : Callback) (wid : Z) (e : KeyEvent) (w' : World),
            sent w' = sent w -> pending w' = pending w ->
            exists later : list Delivery,
              sent (super_process_key_event cb wid e (send_delayed_key gks w'))
              = sent w ++ later /\ (length later <= 2)%nat) as Hflush.
  { intros gks cb wid e w' Hs Hp.
    destruct (send_delayed_key_sent gks w') as (Hs' & _).
    exists ((if in_0_1 (gks VK_RMENU) then pending w' else []) ++ [(cb, wid, e)]).
    simpl. rewrite Hs', Hs. split; [by rewrite <- app_assoc|].
    rewrite length_app. unfold pending.
    destruct (in_0_1 (gks VK_RMENU)), (delayed_event (self w')); simpl; lia. }
  destruct i as [gks cb wid e|gks|mappings]; simpl.
  - unfold process_key_event.
    destruct ((keyval e =? 2 ^ 24 - 1) && bool_decide (keyname e = "VoidSymbol")).
    { exists []. rewrite app_nil_r. split; [done|simpl; lia]. }
    pose proof (translate_hyper_world e w) as (Hd & Hs & _).
    destruct (translate_hyper e w) as [e' w']. simpl in *.
    assert (pending w' = pending w) as Hp by (unfold pending; by rewrite Hd).
    destruct (altgr_emulated (self w')); [|by apply Hflush].
    destruct (decide (keyname e' = "Control_L")).
    + exists []. rewrite app_nil_r. split; [|simpl; lia].
      by destruct (in_0_1 (gks VK_RMENU)).
    + destruct (decide (keyname e' = "Alt_R")); [|by apply Hflush].
      destruct (in_0_1 (gks VK_RMENU)) eqn:Hup; [|by apply Hflush].
      exists [(cb, wid,
               mkKeyEvent
                 (AltGr_modifiers (self (set_self (set_delayed_event None (self w')) w'))
                    (modifiers e') true) "" (-1) (-1) (-1) "" (pressed e'))].
      rewrite send_delayed_key_idle by done. simpl. rewrite Hs.
      split; [done|lia].
  - unfold timeout_fire. destruct (timeouts w) as [|t ts].
    { exists []. rewrite app_nil_r. split; [done|simpl; lia]. }
    destruct (send_delayed_key_sent gks
                (mkWorld (self w) (KEY_TRANSLATIONS w) ts (sent w))) as (Hs & _).
    exists (if in_0_1 (gks VK_RMENU) then pending w else []).
    split; [exact Hs|]. unfold pending.
    destruct (in_0_1 (gks VK_RMENU)), (delayed_event (self w)); simpl; lia.
  - exists []. rewrite app_nil_r. split; [done|simpl; lia].
Qed.

(** X12: what has been forwarded stays forwarded: after any inputs the list
    of deliveries is the earlier list with new deliveries put after it, at
    most two for each input. *)
Theorem run_sent_grows (inputs : list Input) (w : World) :
  exists later : list Delivery,
    sent (run w inputs) = sent w ++ later
    /\ (length later <= 2 * length inputs)%nat.
Proof.
  revert w. induction inputs as [|i inputs IH]; intros w.
  - exists []. rewrite app_nil_r. split; [done|simpl; lia].
  - change (run w (i :: inputs)) with (run (step w i) inputs).
    destruct (step_sent i w) as (l1 & Hs1 & Hl1).
    destruct (IH (step w i)) as (l2 & Hs2 & Hl2).
    exists (l1 ++ l2). rewrite Hs2, Hs1, <- app_assoc. split; [done|].
    rewrite length_app. simpl. lia.
Qed.

Lemma step_pending_Control_L (i : Input) (w : World) :
  Forall (fun d : Delivery => keyname d.2 = "Control_L") (pending w) ->
  Forall (fun d : Delivery => keyname d.2 = "Control_L") (pending (step w i)).
Proof.
  intros Hw.
  assert (forall (gks : KeyState) (cb : Callback) (wid : Z) (e : KeyEvent) (w' : World),
            pending (super_process_key_event cb wid e (send_delayed_key gks w')) = [])
    as Hflush.
  { intros gks cb wid e w'. by destruct (send_delayed_key_sent gks w') as (_ & Hp & _). }
  destruct i as [gks cb wid e|gks|mappings]; simpl.
  - unfold process_key_event.
    destruct ((keyval e =? 2 ^ 24 - 1) && bool_decide (keyname e = "VoidSymbol"));
      [done|].
    pose proof (translate_hyper_world e w) as (Hd & _).
    destruct (translate_hyper e w) as [e' w']. simpl in *.
    destruct (altgr_emulated (self w')); [|by rewrite Hflush].
    destruct (decide (keyname e' = "Control_L")).
    + destruct (in_0_1 (gks VK_RMENU)).
      * unfold pending. simpl. by repeat constructor.
      * unfold pending in *. by rewrite Hd.
    + destruct (decide (keyname e' = "Alt_R")); by rewrite Hflush.
  - unfold timeout_fire. destruct (timeouts w) as [|t ts]; [done|].
    destruct (send_delayed_key_sent gks
                (mkWorld (self w) (KEY_TRANSLATIONS w) ts (sent w))) as (_ & Hp & _).
    by rewrite Hp.
  - done.
Qed.

(** X13: in every reachable world the slot holds nothing but a [Control_L]
    event. *)
Theorem reachable_pending_Control_L (w : World) :
  reachable w ->
  Forall (fun d : Delivery => keyname d.2 = "Control_L") (pending w).
Proof.
  intros (layouts & w0 & inputs & ->).
  assert (Forall (fun d : Delivery => keyname d.2 = "Control_L")
            (pending (init_vars layouts w0))) as Hinit by constructor.
  revert Hinit. generalize (init_vars layouts w0).
  induction inputs as [|i inputs IH]; intros w Hw; [done|].
  change (run w (i :: inputs)) with (run (step w i) inputs).
  by apply IH, step_pending_Control_L.
Qed.

Lemma find_altgr_truthy (keys : gmap string string) (xs : list string)
    (altgr : option string) :
  truthy altgr = true -> truthy (find_altgr keys xs altgr) = true.
Proof.
  intros Ha. induction xs as [|x xs IH]; simpl; [done|].
  by destruct (truthy (keys !! x)) eqn:Hx.
Qed.

Lemma step_bindings (i : Input) (w : World) :
  (forall mappings, i <> mappings_input mappings) ->
  altgr_modifier (self (step w i)) = altgr_modifier (self w)
  /\ num_lock_modifier (self (step w i)) = num_lock_modifier (self w)
  /\ modifier_mappings (self (step w i)) = modifier_mappings (self w).
Proof.
  intros Hi.
  assert (forall (gks : KeyState) (w' : World),
            altgr_modifier (self (send_delayed_key gks w')) = altgr_modifier (self w')
            /\ num_lock_modifier (self (send_delayed_key gks w'))
               = num_lock_modifier (self w')
            /\ modifier_mappings (self (send_delayed_key gks w'))
               = modifier_mappings (self w')) as Hsend.
  { intros gks w'. unfold send_delayed_key.
    destruct (delayed_event (self w')) as [[[cb wid] e]|]; [|done].
    by destruct (in_0_1 (gks VK_RMENU)). }
  destruct i as [gks cb wid e|gks|mappings]; simpl.
  - unfold process_key_event.
    destruct ((keyval e =? 2 ^ 24 - 1) && bool_decide (keyname e = "VoidSymbol"));
      [done|].
    assert (altgr_modifier (self (translate_hyper e w).2) = altgr_modifier (self w)
            /\ num_lock_modifier (self (translate_hyper e w).2)
               = num_lock_modifier (self w)
            /\ modifier_mappings (self (translate_hyper e w).2)
               = modifier_mappings (self w)) as (Ha & Hn & Hm).
    { unfold translate_hyper. destruct (decide (keyname e = "Delete")); [done|].
      by destruct (hyper_modifier (self w)). }
    destruct (translate_hyper e w) as [e' w']. simpl in *.
    rewrite <- Ha, <- Hn, <- Hm.
    destruct (altgr_emulated (self w')); [|simpl; apply Hsend].
    destruct (decide (keyname e' = "Control_L")).
    + by destruct (in_0_1 (gks VK_RMENU)).
    + destruct (decide (keyname e' = "Alt_R")); simpl; [|apply Hsend].
      destruct (Hsend gks (if in_0_1 (gks VK_RMENU)
                           then set_self (set_delayed_event None (self w')) w'
                           else w')) as (-> & -> & ->).
      by destruct (in_0_1 (gks VK_RMENU)).
  - unfold timeout_fire. destruct (timeouts w) as [|t ts]; [done|].
    apply (Hsend gks (mkWorld (self w) (KEY_TRANSLATIONS w) ts (sent w))).
  - by destruct (Hi mappings).
Qed.

(** X14: key events and timeouts never change the modifier bindings, and
    new modifier mappings never unbind AltGr: once a token is bound to
    AltGr some token stays bound after any inputs (new mappings that bind
    neither "ISO_Level3_Shift" nor "Mode_switch" leave the old token in
    place). *)
Theorem altgr_binding_sticks (inputs : list Input) (w : World) :
  (Forall (fun i => forall mappings, i <> mappings_input mappings) inputs ->
   altgr_modifier (self (run w inputs)) = altgr_modifier (self w)
   /\ num_lock_modifier (self (run w inputs)) = num_lock_modifier (self w)
   /\ modifier_mappings (self (run w inputs)) = modifier_mappings (self w))
  /\ (truthy (altgr_modifier (self w)) = true ->
      truthy (altgr_modifier (self (run w inputs))) = true).
Proof.
  split.
  - revert w. induction inputs as [|i inputs IH]; intros w Hin; [done|].
    apply Forall_cons in Hin as [Hi Hin].
    change (run w (i :: inputs)) with (run (step w i) inputs).
    destruct (IH (step w i) Hin) as (-> & -> & ->). by apply step_bindings.
  - revert w. induction inputs as [|i inputs IH]; intros w Hw; [done|].
    change (run w (i :: inputs)) with (run (step w i) inputs).
    apply IH. destruct i as [gks cb wid e|gks|mappings].
    + by destruct (step_bindings (key_input gks cb wid e) w) as (-> & _).
    + by destruct (step_bindings (timeout_input gks) w) as (-> & _).
    + by apply (find_altgr_truthy (super_modifier_keys mappings)
                  ["ISO_Level3_Shift"; "Mode_switch"]).
Qed.

(** X15: with AltGr emulation disabled nothing is ever delayed: from an
    empty slot, any inputs leave the slot empty and schedule no timeout,
    and every key event other than a dropped "VoidSymbol" is forwarded by
    its own call, so the deliveries made are as many as those events. *)
Theorem emulation_disabled_no_delay (inputs : list Input) (w : World) :
  EMULATE_ALTGR = false ->
  pending w = [] ->
  pending (run w inputs) = []
  /\ (length (timeouts (run w inputs)) <= length (timeouts w))%nat
  /\ length (sent (run w inputs))
     = (length (sent w) + length (filter (fun i => forwards i = true) inputs))%nat.
Proof.
  intros Hoff. revert w. induction inputs as [|i inputs IH]; intros w Hidle.
  - split_and!; [done|done|simpl; lia].
  - change (run w (i :: inputs)) with (run (step w i) inputs).
    assert (pending (step w i) = []
            /\ (length (timeouts (step w i)) <= length (timeouts w))%nat
            /\ length (sent (step w i))
               = (length (sent w) + if forwards i then 1 else 0)%nat)
      as (Hp & Ht & Hs).
    { destruct i as [gks cb wid e|gks|mappings]; simpl.
      - unfold process_key_event.
        destruct ((keyval e =? 2 ^ 24 - 1) && bool_decide (keyname e = "VoidSymbol"));
          simpl; [split_and!; [done|done|lia]|].
        pose proof (translate_hyper_world e w) as (Hd & Hs & Ht & _).
        destruct (translate_hyper e w) as [e' w']. simpl in *.
        assert (altgr_emulated (self w') = false) as ->
          by (unfold altgr_emulated; by rewrite Hoff).
        destruct (send_delayed_key_sent gks w') as (Hs' & Hp' & Ht' & _).
        assert (pending w' = []) as Hidle' by (unfold pending in *; by rewrite Hd).
        simpl. rewrite length_app, Hs', Hidle', Ht', Ht, Hs. simpl.
        split_and!; [exact Hp'|done|].
        destruct (in_0_1 (gks VK_RMENU)); rewrite app_nil_r; lia.
      - unfold timeout_fire. destruct (timeouts w) as [|t ts] eqn:Hts.
        { rewrite Hts. split_and!; [done|done|lia]. }
        destruct (send_delayed_key_sent gks
                    (mkWorld (self w) (KEY_TRANSLATIONS w) ts (sent w)))
          as (Hs' & Hp' & Ht' & _).
        rewrite Hs', Hp', Ht'.
        change (pending (mkWorld (self w) (KEY_TRANSLATIONS w) ts (sent w)))
          with (pending w). rewrite Hidle. simpl.
        split_and!; [done|lia|].
        destruct (in_0_1 (gks VK_RMENU)); rewrite app_nil_r; lia.
      - split_and!; [done|done|lia]. }
    destruct (IH (step w i) Hp) as (Hp' & Ht' & Hs').
    split_and!; [done|lia|].
    rewrite Hs', Hs.
    destruct (forwards i) eqn:Hf.
    + rewrite filter_cons_True by done. simpl. lia.
    + rewrite filter_cons_False by (by rewrite Hf). lia.
Qed.

(** ** Dicts in insertion order *)

Lemma dict_get_app {K V : Type} `{EqDecision K} (d d' : list (K * V)) (k : K) :
  dict_get (d ++ d') k
  = match dict_get d k with Some v => Some v | None => dict_get d' k end.
Proof using Type.
  induction d as [|[k' v] d IH]; simpl; [done|].
  by destruct (decide (k' = k)).
Qed.

Lemma dict_get_Some {K V : Type} `{EqDecision K} (d : list (K * V)) (k : K) (v : V) :
  dict_get d k = Some v -> (k, v) ∈ d.
Proof using Type.
  induction d as [|[k' v'] d IH]; simpl; [done|].
  destruct (decide (k' = k)) as [->|].
  - intros [= ->]. by left.
  - intros Hd. right. by apply IH.
Qed.

Lemma dict_get_None {K V : Type} `{EqDecision K} (d : list (K * V)) (k : K) :
  dict_get d k = None <-> k ∉ map fst d.
Proof using Type.
  induction d as [|[k' v'] d IH]; simpl.
  - split; [intros _ Hin; by apply elem_of_nil in Hin|done].
  - rewrite not_elem_of_cons. destruct (decide (k' = k)) as [->|Hne].
    + split; [done|]. by intros [? _].
    + rewrite IH. split; [by intros ?; split|by intros [_ ?]].
Qed.

Lemma dict_item_key {K V : Type} (d : list (K * V)) (k : K) (v : V) :
  (k, v) ∈ d -> k ∈ map fst d.
Proof using Type.
  induction d as [|[k' v'] d IH]; simpl; intros Hin.
  - by apply elem_of_nil in Hin.
  - apply elem_of_cons in Hin as [[= -> ->]|Hin]; [by left|right; by apply IH].
Qed.

Lemma dict_get_is_Some {K V : Type} `{EqDecision K} (d : list (K * V)) (k : K) :
  is_Some (dict_get d k) <-> k ∈ map fst d.
Proof using Type.
  destruct (dict_get d k) as [v|] eqn:Hd.
  - split; [intros _|by eexists].
    apply dict_get_Some in Hd. by eapply dict_item_key.
  - split; [by intros [? ?]|]. intros Hin. by apply dict_get_None in Hd.
Qed.

Lemma dict_add_missing_keys {K V : Type} `{EqDecision K} (k : K) (v : V)
    (d : list (K * V)) :
  (NoDup (map fst d) -> NoDup (map fst (dict_add_missing k v d)))
  /\ k ∈ map fst (dict_add_missing k v d)
  /\ (forall k', k' ∈ map fst d -> k' ∈ map fst (dict_add_missing k v d))
  /\ (forall k' v', dict_get d k' = Some v' ->
                    dict_get (dict_add_missing k v d) k' = Some v').
Proof using Type.
  unfold dict_add_missing. destruct (dict_get d k) as [v0|] eqn:Hd.
  - split_and!; try done. apply dict_get_is_Some. by rewrite Hd.
  - apply dict_get_None in Hd. rewrite map_app. simpl. split_and!.
    + intros Hn. apply NoDup_app. split_and!; [done| |apply NoDup_singleton].
      intros k' Hk' Hin. apply list_elem_of_singleton in Hin as ->. done.
    + apply elem_of_app. right. by left.
    + intros k' Hk'. apply elem_of_app. by left.
    + intros k' v' Hk'. by rewrite dict_get_app, Hk'.
Qed.

(** ** The layout tables *)

Lemma get_all_x11_layouts_fold (rows : list Win32Layout)
    (acc : list (string * string)) :
  let result :=
    fold_left
      (fun (x11_layouts : list (string * string)) (win32_layout : Win32Layout) =>
         match dict_get x11_layouts (win32_x11_layout win32_layout) with
         | Some _ => x11_layouts
         | None => x11_layouts
                   ++ [(win32_x11_layout win32_layout, win32_name win32_layout)]
         end) rows acc in
  (NoDup (map fst acc) -> NoDup (map fst result))
  /\ forall layout : string,
       dict_get result layout
       = match dict_get acc layout with
         | Some name => Some name
         | None =>
             dict_get (map (fun row => (win32_x11_layout row, win32_name row)) rows)
               layout
         end.
Proof using Type.
  revert acc. induction rows as [|row rows IH]; intros acc; simpl.
  - split; [done|]. intros layout. by destruct (dict_get acc layout).
  - destruct (IH (dict_add_missing (win32_x11_layout row) (win32_name row) acc))
      as [Hnd Hget].
    unfold dict_add_missing in Hnd, Hget.
    destruct (dict_add_missing_keys (win32_x11_layout row) (win32_name row) acc)
      as (Hnd' & _).
    unfold dict_add_missing in Hnd'.
    split; [by intros Hacc; apply Hnd, Hnd'|].
    intros layout. rewrite Hget.
    destruct (dict_get acc (win32_x11_layout row)) as [name|] eqn:Hrow.
    + destruct (dict_get acc layout) eqn:Hl; [done|].
      destruct (decide (win32_x11_layout row = layout)) as [<-|]; [|done].
      by rewrite Hrow in Hl.
    + rewrite dict_get_app. simpl.
      destruct (dict_get acc layout) eqn:Hl; [done|].
      by destruct (decide (win32_x11_layout row = layout)).
Qed.

(** X16: [get_all_x11_layouts] lists every X11 layout of [WIN32_LAYOUTS]
    once, and names it after the first row of the table that has this
    layout: later rows with the same layout are skipped. *)
Theorem get_all_x11_layouts_first_row :
  NoDup (map fst get_all_x11_layouts)
  /\ forall layout : string,
       dict_get get_all_x11_layouts layout
       = dict_get (map (fun item : Z * Win32Layout =>
                          (win32_x11_layout item.2, win32_name item.2))
                     WIN32_LAYOUTS) layout.
Proof using Type.
  destruct (get_all_x11_layouts_fold (map snd WIN32_LAYOUTS) []) as [Hnd Hget].
  split; [by apply Hnd, NoDup_nil|].
  intros layout. unfold get_all_x11_layouts. rewrite Hget. simpl.
  by rewrite map_map.
Qed.

Lemma find_kbid_found (hkl mask : Z) (bitshifts : list Z) (kbid : Z)
    (row : Win32Layout) :
  bitshifts <> [] ->
  dict_get WIN32_LAYOUTS (find_kbid hkl mask bitshifts kbid) = Some row ->
  exists bitshift : Z,
    bitshift ∈ bitshifts
    /\ find_kbid hkl mask bitshifts kbid = Z.shiftr (Z.land hkl mask) bitshift.
Proof using Type.
  revert kbid. induction bitshifts as [|b bs IH]; intros kbid Hne; [done|].
  simpl. destruct (dict_get WIN32_LAYOUTS (Z.shiftr (Z.land hkl mask) b)) eqn:Hb.
  - intros _. exists b. split; [by left|done].
  - destruct bs as [|b' bs].
    + simpl. by rewrite Hb.
    + intros Hrow. destruct (IH (Z.shiftr (Z.land hkl mask) b)) as (b0 & Hin & Heq);
        [done|done|].
      exists b0. split; [by right|done].
Qed.

Lemma register_handle_cases (hkl : Z) (masks : list (Z * list Z))
    (defs : list (string * Z)) :
  Forall (fun item : Z * list Z => item.2 <> []) masks ->
  register_handle hkl masks defs = defs
  \/ exists layout : string,
       register_handle hkl masks defs = defs ++ [(layout, hkl)]
       /\ dict_get defs layout = None
       /\ handle_names_layout masks hkl layout.
Proof using Type.
  induction masks as [|[mask bitshifts] masks IH]; intros Hne; [by left|].
  apply Forall_cons in Hne as [Hb Hne]. simpl in Hb.
  assert (register_handle hkl masks defs = defs
          \/ exists layout : string,
               register_handle hkl masks defs = defs ++ [(layout, hkl)]
               /\ dict_get defs layout = None
               /\ handle_names_layout ((mask, bitshifts) :: masks) hkl layout) as IH'.
  { destruct (IH Hne) as [|(layout & ? & ? & (m & bs & b & row & ? & ? & ? & ?))];
      [by left|right].
    exists layout. split_and!; [done|done|].
    exists m, bs, b, row. split_and!; [by right|done..]. }
  simpl.
  destruct (dict_get WIN32_LAYOUTS (find_kbid hkl mask bitshifts 0)) as [row|] eqn:Hrow;
    [|done].
  destruct (dict_get defs (win32_x11_layout row)) eqn:Hdef; [done|].
  right. exists (win32_x11_layout row). split_and!; [done|done|].
  destruct (find_kbid_found hkl mask bitshifts 0 row Hb Hrow) as (b & Hin & Heq).
  exists mask, bitshifts, b, row. split_and!; [by left|done| |done].
  by rewrite <- Heq.
Qed.

Lemma KMASKS_bitshifts : Forall (fun item : Z * list Z => item.2 <> []) KMASKS.
Proof using Type. by repeat constructor. Qed.

Lemma register_handles_Some (hkl : Z) (handles : list (option Z))
    (defs : list (string * Z)) :
  register_handles (Some hkl :: handles) defs
  = register_handles handles (register_handle hkl KMASKS defs).
Proof using Type. reflexivity. Qed.

(** What [register_handles] adds to a dict: items that come from the
    handles, under new keys. *)
Lemma register_handles_sound (handles : list (option Z)) (defs : list (string * Z)) :
  exists added : list (string * Z),
    register_handles handles defs = defs ++ added
    /\ (NoDup (map fst defs) -> NoDup (map fst (defs ++ added)))
    /\ forall layout hkl,
         (layout, hkl) ∈ added ->
         Some hkl ∈ handles /\ handle_names_layout KMASKS hkl layout.
Proof using Type.
  revert defs. induction handles as [|[hkl|] handles IH]; intros defs.
  - exists []. rewrite app_nil_r. split_and!; [done|done|]. intros ? ? Hin.
    by apply elem_of_nil in Hin.
  - rewrite register_handles_Some.
    destruct (IH (register_handle hkl KMASKS defs)) as (added & Heq & Hnd & Hin).
    destruct (register_handle_cases hkl KMASKS defs KMASKS_bitshifts)
      as [Hsame|(layout & Hadd & Hnew & Hfrom)].
    + rewrite Hsame in *. exists added. split_and!; [done|done|].
      intros l h Hlh. destruct (Hin l h Hlh). split; [by right|done].
    + rewrite Hadd in *. exists ((layout, hkl) :: added).
      rewrite <- app_assoc in Heq, Hnd. split_and!; [done| |].
      * intros Hdefs. apply Hnd. rewrite map_app. simpl.
        apply NoDup_app. split_and!; [done| |apply NoDup_singleton].
        intros k Hk Hk'. apply list_elem_of_singleton in Hk' as ->.
        by apply dict_get_None in Hnew.
      * intros l h Hlh. apply elem_of_cons in Hlh as [[= -> ->]|Hlh].
        -- split; [by left|done].
        -- destruct (Hin l h Hlh). split; [by right|done].
  - exists []. rewrite app_nil_r. split_and!; [done|done|]. intros ? ? Hin.
    by apply elem_of_nil in Hin.
Qed.

(** X17: [x11_layouts_to_win32_hkl] maps every layout to one handle; each
    handle in it is one that the operating system enumerated, and its
    layout is the one of the [WIN32_LAYOUTS] row found from the handle by
    a mask and shift of [KMASKS].  A failed enumeration gives the empty
    dict. *)
Theorem x11_layouts_to_win32_hkl_sound (handles : option (list (option Z))) :
  NoDup (map fst (x11_layouts_to_win32_hkl handles))
  /\ (forall (layout : string) (hkl : Z),
        (layout, hkl) ∈ x11_layouts_to_win32_hkl handles ->
        (exists hs, handles = Some hs /\ Some hkl ∈ hs)
        /\ handle_names_layout KMASKS hkl layout)
  /\ x11_layouts_to_win32_hkl None = [].
Proof using Type.
  split_and!; [| |done].
  - destruct handles as [hs|]; simpl; [|apply NoDup_nil_2].
    destruct (register_handles_sound hs []) as (added & -> & Hnd & _).
    apply Hnd, NoDup_nil_2.
  - intros layout hkl. destruct handles as [hs|]; simpl.
    + destruct (register_handles_sound hs []) as (added & -> & _ & Hin).
      simpl. intros Hlh. destruct (Hin layout hkl Hlh). split; [by exists hs|done].
    + intros Hin. by apply elem_of_nil in Hin.
Qed.

Lemma register_handles_app (hs1 hs2 : list (option Z)) (defs : list (string * Z)) :
  register_handles (hs1 ++ hs2) defs
  = if bool_decide (None ∈ hs1) then register_handles hs1 defs
    else register_handles hs2 (register_handles hs1 defs).
Proof using Type.
  revert defs. induction hs1 as [|[hkl|] hs1 IH]; intros defs.
  - by rewrite bool_decide_eq_false_2 by (intros Hin; by apply elem_of_nil in Hin).
  - rewrite <- app_comm_cons, !register_handles_Some.
    rewrite IH. destruct (decide (None ∈ hs1)).
    + rewrite (bool_decide_eq_true_2 (None ∈ hs1)) by done.
      by rewrite bool_decide_eq_true_2 by (apply elem_of_cons; by right).
    + rewrite (bool_decide_eq_false_2 (None ∈ hs1)) by done.
      rewrite bool_decide_eq_false_2; [done|].
      intros Hin. by apply elem_of_cons in Hin as [|].
  - by rewrite bool_decide_eq_true_2 by (apply elem_of_cons; by left).
Qed.

(** X18: earlier handles win.  Handles enumerated later only add layouts:
    the dict for a list of handles begins with the dict for any of its
    initial segments, and a NULL handle ends the walk, whatever follows
    it. *)
Theorem x11_layouts_to_win32_hkl_prefix (hs1 hs2 : list (option Z)) :
  x11_layouts_to_win32_hkl (Some hs1)
    `prefix_of` x11_layouts_to_win32_hkl (Some (hs1 ++ hs2))
  /\ x11_layouts_to_win32_hkl (Some (hs1 ++ None :: hs2))
     = x11_layouts_to_win32_hkl (Some hs1).
Proof using Type.
  simpl. rewrite !register_handles_app. split.
  - destruct (bool_decide (None ∈ hs1)); [done|].
    destruct (register_handles_sound hs2 (register_handles hs1 [])) as (added & -> & _).
    by exists added.
  - by destruct (bool_decide (None ∈ hs1)).
Qed.

Lemma list_to_map_dict_get (d : list (string * Z)) (k : string) :
  (list_to_map d : gmap string Z) !! k = dict_get d k.
Proof using Type.
  induction d as [|[k' v] d IH]; simpl; [done|].
  destruct (decide (k' = k)) as [->|Hne].
  - by rewrite lookup_insert_eq.
  - by rewrite lookup_insert_ne.
Qed.

(** X19: after [init_vars] has stored the dict of
    [x11_layouts_to_win32_hkl], [set_platform_layout] activates nothing
    but a handle that the operating system enumerated and that names the
    layout asked for; for a layout without a handle it activates nothing. *)
Theorem set_platform_layout_enumerated (handles : option (list (option Z)))
    (layout : string) (w : World) :
  let k := self (init_vars (list_to_map (x11_layouts_to_win32_hkl handles)) w) in
  set_platform_layout layout k = dict_get (x11_layouts_to_win32_hkl handles) layout
  /\ forall hkl : Z,
       set_platform_layout layout k = Some hkl ->
       (exists hs, handles = Some hs /\ Some hkl ∈ hs)
       /\ handle_names_layout KMASKS hkl layout.
Proof using Type.
  intros k.
  assert (set_platform_layout layout k
          = dict_get (x11_layouts_to_win32_hkl handles) layout) as Heq
    by apply list_to_map_dict_get.
  split; [done|]. intros hkl Hk. rewrite Heq in Hk.
  apply dict_get_Some in Hk. destruct handles as [hs|]; simpl in Hk.
  - destruct (register_handles_sound hs []) as (added & Hadd & _ & Hin).
    rewrite Hadd in Hk. destruct (Hin layout hkl Hk). split; [by exists hs|done].
  - by apply elem_of_nil in Hk.
Qed.

(** ** [get_layout_spec] *)

Lemma register_handle_NoDup (hkl : Z) (defs : list (string * Z)) :
  NoDup (map fst defs) -> NoDup (map fst (register_handle hkl KMASKS defs)).
Proof using Type.
  intros Hdefs.
  destruct (register_handle_cases hkl KMASKS defs KMASKS_bitshifts)
    as [->|(layout & -> & Hnew & _)]; [done|].
  rewrite map_app. apply NoDup_app. split_and!; [done| |apply NoDup_singleton].
  intros k Hk Hk'. apply list_elem_of_singleton in Hk' as ->.
  by apply dict_get_None in Hnew.
Qed.

Lemma register_fold_NoDup (l : list Z) (defs : list (string * Z)) :
  NoDup (map fst defs) ->
  NoDup (map fst (fold_left (fun defs hkl => register_handle hkl KMASKS defs) l defs)).
Proof using Type.
  revert defs. induction l as [|hkl l IH]; intros defs Hdefs; [done|].
  apply IH. by apply register_handle_NoDup.
Qed.

Lemma layout_registered_add (layout : option string) (k : string) (v : Z)
    (defs : list (string * Z)) :
  layout_registered layout defs ->
  layout_registered layout (dict_add_missing k v defs)
  /\ layout_registered (Some k) (dict_add_missing k v defs).
Proof using Type.
  intros [Hnd Hin].
  destruct (dict_add_missing_keys k v defs) as (Hnd' & Hk & Hkeys & _).
  split; (split; [by apply Hnd'|]).
  - intros l Hl. by apply Hkeys, Hin.
  - by intros l [= <-].
Qed.

Lemma name_masks_sound (ival : Z) (masks : list Z) (layout descr : option string)
    (layout_code : Z) (defs : list (string * Z)) (messages : list LayoutMessage) :
  layout_registered layout defs ->
  exists (layout' descr' : option string) (layout_code' : Z)
         (defs' : list (string * Z)) (warnings : list LayoutMessage),
    name_masks ival masks layout descr layout_code defs messages
    = (layout', descr', layout_code', defs', messages ++ warnings)
    /\ layout_registered layout' defs'
    /\ Forall (fun m => exists val d, m = warn_unknown_codename val d) warnings.
Proof using Type.
  revert defs messages. induction masks as [|mask masks IH]; intros defs messages Hreg.
  - exists layout, descr, layout_code, defs, []. by rewrite app_nil_r.
  - simpl. destruct (WIN32_KEYBOARDS !! Z.land ival mask) as [[_layout _descr]|];
      [|by apply IH].
    destruct (decide (_layout = "??")).
    + destruct (IH defs (messages ++ [warn_unknown_codename (Z.land ival mask) _descr])
                  Hreg) as (l' & d' & c' & defs' & ws & Heq & Hreg' & Hws).
      exists l', d', c', defs', (warn_unknown_codename (Z.land ival mask) _descr :: ws).
      split_and!; [by rewrite Heq, <- app_assoc|done|].
      constructor; [by eexists _, _|done].
    + destruct (layout_registered_add layout _layout ival defs Hreg) as [Hkeep Hnew].
      destruct (truthy layout); [by apply IH|].
      exists (Some _layout), (Some _descr), ival, (dict_add_missing _layout ival defs), [].
      by rewrite app_nil_r.
Qed.

Lemma active_masks_sound (hkl : Z) (masks : list Z) (layout : option string)
    (layout_code : Z) (variants : option (list string)) (defs : list (string * Z)) :
  layout_registered layout defs ->
  exists (layout' : option string) (layout_code' : Z)
         (variants' : option (list string)) (defs' : list (string * Z)),
    active_masks hkl masks layout layout_code variants defs
    = (layout', layout_code', variants', defs')
    /\ layout_registered layout' defs'
    /\ (truthy layout = true -> layout' = layout /\ layout_code' = layout_code).
Proof using Type.
  revert layout layout_code variants defs.
  induction masks as [|mask masks IH]; intros layout layout_code variants defs Hreg.
  - by exists layout, layout_code, variants, defs.
  - simpl. destruct (dict_get WIN32_LAYOUTS (Z.land hkl mask)) as [row|];
      [|by apply IH].
    destruct (layout_registered_add layout (win32_x11_layout row) hkl defs Hreg)
      as [Hkeep Hnew].
    destruct (truthy layout) eqn:Ht; simpl.
    + destruct (IH layout layout_code (Some (win32_variants row))
                  (dict_add_missing (win32_x11_layout row) hkl defs) Hkeep)
        as (l' & c' & v' & d' & Heq & Hreg' & Hsame).
      exists l', c', v', d'. split_and!; [done|done|]. intros _. apply Hsame, Ht.
    + destruct (decide (win32_x11_layout row = "")).
      * destruct (IH layout layout_code (Some (win32_variants row))
                    (dict_add_missing (win32_x11_layout row) hkl defs) Hkeep)
          as (l' & c' & v' & d' & Heq & Hreg' & _).
        exists l', c', v', d'. by split_and!.
      * destruct (IH (Some (win32_x11_layout row)) hkl (Some (win32_variants row))
                    (dict_add_missing (win32_x11_layout row) hkl defs) Hnew)
          as (l' & c' & v' & d' & Heq & Hreg' & _).
        exists l', c', v', d'. by split_and!.
Qed.

Lemma set_last_layout_message_same (w : World) :
  set_self (set_last_layout_message (last_layout_message (self w)) (self w)) w = w.
Proof using Type. destruct w as [k t ts s]. by destruct k. Qed.

Lemma truthy_is_Some (o : option string) : truthy o = true -> is_Some o.
Proof using Type. destruct o; [by eexists|done]. Qed.

(** What one call of [get_layout_spec] does, with the part that depends
    on the world singled out: the tuple returned does not depend on it;
    [last_layout_message] is first reset when the layout name is unknown,
    then set to the layout when that is new. *)
Lemma get_layout_spec_shape (queries : LayoutQueries) :
  exists (layout : option string) (layouts_defs : list (string * Z))
         (variants : option (list string)) (descr : option string)
         (layout_code : Z) (messages : list LayoutMessage)
         (reset : option (option string)),
    layout_registered layout layouts_defs
    /\ (map fst layouts_defs <> [] -> is_Some layout)
    /\ (forall d l c, info_keyboard_layout d l c ∉ messages)
    /\ (is_Some reset <-> exists ival, warn_unknown_layout ival ∈ messages)
    /\ (forall v, reset = Some v -> truthy v = false)
    /\ forall w : World,
         let last :=
           match reset with
           | Some v => v
           | None => last_layout_message (self w)
           end in
         let announce := truthy layout && negb (bool_decide (last = layout)) in
         get_layout_spec queries w
         = ((layout, map fst layouts_defs, None, variants, ""),
            messages
            ++ (if announce
                then [info_keyboard_layout (if truthy descr then descr else None)
                        (default "" layout) layout_code]
                else []),
            set_self (set_last_layout_message (if announce then layout else last)
                        (self w)) w).
Proof using Type.
  destruct queries as [handles name active]. unfold get_layout_spec.
  cbn [layout_handles layout_name active_layout].
  (* the handles *)
  assert (exists defs1 msgs1,
            match _GetKeyboardLayoutList handles with
            | Some l =>
                (fold_left (fun defs hkl => register_handle hkl KMASKS defs) l [], [])
            | None => ([], [error_layout_list])
            end = (defs1, msgs1)
            /\ NoDup (map fst defs1)
            /\ Forall (fun m => m = error_layout_list) msgs1)
    as (defs1 & msgs1 & -> & Hnd1 & Hm1).
  { destruct (_GetKeyboardLayoutList handles) as [l|].
    - eexists _, _. split_and!; [done| |done]. apply register_fold_NoDup, NoDup_nil_2.
    - eexists _, _. split_and!; [done|apply NoDup_nil_2|by repeat constructor]. }
  assert (layout_registered None defs1) as Hreg1 by (by split).
  (* the layout name *)
  assert (exists layout2 descr2 code2 defs2 msgs2 (reset : option (option string)),
            layout_registered layout2 defs2
            /\ (forall d l c, info_keyboard_layout d l c ∉ msgs2)
            /\ (is_Some reset <-> exists ival, warn_unknown_layout ival ∈ msgs2)
            /\ (forall v, reset = Some v -> truthy v = false /\ v = layout2)
            /\ forall w : World,
                 match name with
                 | None => (None, None, 0, defs1, msgs1, w)
                 | Some None => (None, None, 0, defs1, msgs1 ++ [warn_layout_name_parse], w)
                 | Some (Some ival) =>
                     let '(layout, descr, layout_code, layouts_defs, messages) :=
                       name_masks ival (map fst KMASKS) None None 0 defs1 msgs1 in
                     if truthy layout
                     then (layout, descr, layout_code, layouts_defs, messages, w)
                     else (layout, descr, layout_code, layouts_defs,
                           messages ++ [warn_unknown_layout ival],
                           set_self (set_last_layout_message layout (self w)) w)
                 end
                 = (layout2, descr2, code2, defs2, msgs2,
                    match reset with
                    | Some v => set_self (set_last_layout_message v (self w)) w
                    | None => w
                    end))
    as (layout2 & descr2 & code2 & defs2 & msgs2 & reset & Hreg2 & Hinfo2 & Hreset
        & Hfalsy & Heq2).
  { assert (forall d l c, info_keyboard_layout d l c ∉ msgs1) as Hi1.
    { intros d l c Hin. rewrite Forall_forall in Hm1. by specialize (Hm1 _ Hin). }
    assert (forall ival, warn_unknown_layout ival ∉ msgs1) as Hu1.
    { intros ival Hin. rewrite Forall_forall in Hm1. by specialize (Hm1 _ Hin). }
    destruct name as [[ival|]|].
    - destruct (name_masks_sound ival (map fst KMASKS) None None 0 defs1 msgs1 Hreg1)
        as (l' & d' & c' & defs' & ws & -> & Hreg' & Hws).
      assert (forall d l c, info_keyboard_layout d l c ∉ msgs1 ++ ws) as Hi.
      { intros d l c Hin. apply elem_of_app in Hin as [Hin|Hin]; [by eapply Hi1|].
        rewrite Forall_forall in Hws. by destruct (Hws _ Hin) as (? & ? & ?). }
      assert (forall ival', warn_unknown_layout ival' ∉ msgs1 ++ ws) as Hu.
      { intros ival' Hin. apply elem_of_app in Hin as [Hin|Hin]; [by eapply Hu1|].
        rewrite Forall_forall in Hws. by destruct (Hws _ Hin) as (? & ? & ?). }
      destruct (truthy l') eqn:Ht.
      + exists l', d', c', defs', (msgs1 ++ ws), None. split_and!; try done.
        split; [by intros [? ?]|]. intros (ival' & Hin). destruct (Hu _ Hin).
      + exists l', d', c', defs', ((msgs1 ++ ws) ++ [warn_unknown_layout ival]),
          (Some l').
        split_and!; try done.
        * intros d l c Hin. apply elem_of_app in Hin as [Hin|Hin]; [by eapply Hi|].
          by apply list_elem_of_singleton in Hin.
        * split; [intros _|by eexists]. exists ival. apply elem_of_app. right. by left.
        * by intros v [= <-].
    - exists None, None, 0, defs1, (msgs1 ++ [warn_layout_name_parse]), None.
      split_and!; try done.
      + intros d l c Hin. apply elem_of_app in Hin as [Hin|Hin]; [by eapply Hi1|].
        by apply list_elem_of_singleton in Hin.
      + split; [by intros [? ?]|]. intros (ival & Hin).
        apply elem_of_app in Hin as [Hin|Hin]; [destruct (Hu1 _ Hin)|].
        by apply list_elem_of_singleton in Hin.
    - exists None, None, 0, defs1, msgs1, None. split_and!; try done.
      split; [by intros [? ?]|]. intros (ival & Hin). destruct (Hu1 _ Hin). }
  (* the active layout *)
  assert (exists layout3 code3 variants3 defs3 msgs3,
            match active with
            | Some hkl =>
                let '(layout, layout_code, variants, layouts_defs) :=
                  active_masks hkl (map fst KMASKS) layout2 code2 None defs2 in
                (layout, layout_code, variants, layouts_defs, msgs2)
            | None => (layout2, code2, None, defs2, msgs2 ++ [error_active_layout])
            end = (layout3, code3, variants3, defs3, msgs3)
            /\ layout_registered layout3 defs3
            /\ (truthy layout2 = true -> layout3 = layout2)
            /\ (forall d l c, info_keyboard_layout d l c ∉ msgs3)
            /\ ((exists ival, warn_unknown_layout ival ∈ msgs3)
                <-> exists ival, warn_unknown_layout ival ∈ msgs2))
    as (layout3 & code3 & variants3 & defs3 & msgs3 & Heq3 & Hreg3 & Hkeep3 & Hinfo3
        & Hunk3).
  { destruct active as [hkl|].
    - destruct (active_masks_sound hkl (map fst KMASKS) layout2 code2 None defs2 Hreg2)
        as (l' & c' & v' & d' & -> & Hreg' & Hsame).
      exists l', c', v', d', msgs2. split_and!; try done. intros Ht. by apply Hsame.
    - exists layout2, code2, None, defs2, (msgs2 ++ [error_active_layout]).
      split_and!; try done.
      + intros d l c Hin. apply elem_of_app in Hin as [Hin|Hin]; [by eapply Hinfo2|].
        by apply list_elem_of_singleton in Hin.
      + split; intros (ival & Hin); exists ival.
        * apply elem_of_app in Hin as [Hin|Hin]; [done|].
          by apply list_elem_of_singleton in Hin.
        * apply elem_of_app. by left. }
  (* the first layout as a fallback *)
  set (chosen := match map fst defs3 with
                 | first :: _ =>
                     if truthy layout3 then (layout3, code3)
                     else (Some first, default 0 (dict_get defs3 first))
                 | [] => (layout3, code3)
                 end).
  assert (layout_registered chosen.1 defs3
          /\ (map fst defs3 <> [] -> is_Some chosen.1)
          /\ (truthy layout3 = true -> chosen.1 = layout3)) as (Hreg4 & Hsome4 & Hkeep4).
  { subst chosen. pose proof Hreg3 as [Hnd3 Hin3].
    destruct (map fst defs3) as [|first rest] eqn:Hkeys.
    - by split_and!.
    - destruct (truthy layout3) eqn:Ht; simpl.
      + split_and!; [done|intros _; by apply truthy_is_Some|done].
      + split_and!; [split; [apply Hreg3|]|by eexists|done].
        intros l [= <-]. rewrite Hkeys. by left. }
  exists chosen.1, defs3, variants3, descr2, chosen.2, msgs3, reset.
  split; [exact Hreg4|]. split; [exact Hsome4|]. split; [exact Hinfo3|].
  split; [by rewrite Hreset, Hunk3|]. split; [by intros v Hv; apply Hfalsy|].
  intros w. rewrite (Heq2 w). cbv beta zeta match.
  rewrite Heq3. cbv beta zeta match.
  fold chosen. destruct chosen as [layout4 code4] eqn:Hchosen. cbn [fst snd] in *.
  destruct layout4 as [l|]; cbn [truthy default].
  - destruct reset as [v|]; cbn [self set_self last_layout_message set_last_layout_message];
      (destruct (if decide (l = "") then false else true) eqn:Ht; cbn [andb negb];
       [destruct (bool_decide _) eqn:Hb; cbn [negb]|]);
      rewrite ?app_nil_r; try done.
    + by rewrite set_last_layout_message_same.
    + by rewrite set_last_layout_message_same.
  - cbn [andb]. rewrite app_nil_r. destruct reset as [v|]; [done|].
    by rewrite set_last_layout_message_same.
Qed.

(** X20: the tuple that [get_layout_spec] returns is well formed: no layout
    is listed twice, the layout returned is one of the layouts listed, a
    layout is returned whenever one is listed, and the variant and the
    options are always [None] and the empty string. *)
Theorem get_layout_spec_layouts (queries : LayoutQueries) (w : World) :
  let '(layout, layouts, variant, variants, options, messages, w') :=
    get_layout_spec queries w in
  NoDup layouts
  /\ (forall l : string, layout = Some l -> l ∈ layouts)
  /\ (layouts <> [] -> is_Some layout)
  /\ variant = None
  /\ options = "".
Proof using Type.
  destruct (get_layout_spec_shape queries)
    as (layout & defs & variants & descr & code & msgs & reset
        & [Hnd Hin] & Hsome & _ & _ & _ & Heq).
  rewrite (Heq w). by split_and!.
Qed.

(** X21: asking again changes nothing.  The tuple returned does not depend
    on the keyboard object, a call touches nothing but
    [last_layout_message], and a second call with the same answers from
    the operating system returns the same tuple and leaves the world as
    the first call left it.  The info line is not logged a second time,
    unless the first call warned of an unknown layout name: that warning
    comes with a reset of [last_layout_message]. *)
Theorem get_layout_spec_again (queries : LayoutQueries) (w : World) :
  let '(result1, messages1, w1) := get_layout_spec queries w in
  let '(result2, messages2, w2) := get_layout_spec queries w1 in
  (forall w' : World, (get_layout_spec queries w').1.1 = result1)
  /\ w1 = set_self (set_last_layout_message (last_layout_message (self w1)) (self w)) w
  /\ result2 = result1
  /\ w2 = w1
  /\ ((forall ival, warn_unknown_layout ival ∉ messages1) ->
      forall d l c, info_keyboard_layout d l c ∉ messages2).
Proof using Type.
  destruct (get_layout_spec_shape queries)
    as (layout & defs & variants & descr & code & msgs & reset
        & _ & _ & Hinfo & Hreset & Hfalsy & Heq).
  rewrite (Heq w). cbv zeta. rewrite Heq.
  cbn [self set_self last_layout_message set_last_layout_message].
  split; [by intros w'; rewrite Heq|]. split; [done|]. split; [done|].
  set (last1 := match reset with
                | Some v => v
                | None => last_layout_message (self w)
                end).
  set (announce1 := truthy layout && negb (bool_decide (last1 = layout))).
  set (last2 := match reset with
                | Some v => v
                | None => if announce1 then layout else last1
                end).
  assert (truthy layout = true -> (if announce1 then layout else last1) = layout)
    as Hset.
  { intros Ht. subst announce1. rewrite Ht. simpl.
    destruct (bool_decide (last1 = layout)) eqn:Hb; [|done].
    by apply bool_decide_eq_true_1 in Hb. }
  split.
  - destruct (truthy layout) eqn:Ht.
    + rewrite (Hset eq_refl). unfold set_self, set_last_layout_message. simpl.
      destruct (bool_decide (last2 = layout)) eqn:Hb; simpl; [|done].
      apply bool_decide_eq_true_1 in Hb. by rewrite Hb.
    + subst announce1. simpl. subst last2 last1. by destruct reset.
  - intros Hunknown d l c Hin.
    assert (reset = None) as Hnone.
    { destruct reset as [v|]; [|done].
      destruct (proj1 Hreset) as (ival & Hival); [by eexists|].
      destruct (Hunknown ival). apply elem_of_app. by left. }
    apply elem_of_app in Hin as [Hin|Hin]; [by eapply Hinfo|].
    subst last2. rewrite Hnone in *.
    destruct (truthy layout) eqn:Ht; simpl in Hin.
    + rewrite (Hset eq_refl), bool_decide_eq_true_2 in Hin by done.
      by apply elem_of_nil in Hin.
    + by apply elem_of_nil in Hin.
Qed.

(** X22: the layout name comes first.  When the name parses to a number
    that [WIN32_KEYBOARDS] knows in full, with a layout other than "??"
    and the empty string, this layout is the one returned, whatever the
    handles and the active layout say. *)
Theorem get_layout_spec_name_first (queries : LayoutQueries) (w : World)
    (ival : Z) (l d : string) :
  layout_name queries = Some (Some ival) ->
  WIN32_KEYBOARDS !! Z.land ival 0xffffffff = Some (l, d) ->
  l <> "??" -> l <> "" ->
  (get_layout_spec queries w).1.1.1.1.1.1 = Some l.
Proof using Type.
  intros Hname Hkb Hcode Hl.
  destruct queries as [handles name active]. simpl in Hname. subst name.
  unfold get_layout_spec. cbn [layout_handles layout_name active_layout].
  destruct (match _GetKeyboardLayoutList handles with
            | Some l0 =>
                (fold_left (fun defs hkl => register_handle hkl KMASKS defs) l0 [], [])
            | None => ([], [error_layout_list])
            end) as [defs1 msgs1].
  change (map fst KMASKS) with [0xffffffff; 0xffff; 0x3ff].
  cbn [name_masks]. rewrite Hkb.
  destruct (decide (l = "??")); [done|]. cbn [truthy].
  destruct (decide (l = "")); [done|]. cbv beta zeta match.
  assert (forall (hkl : Z) (masks : list Z) (code : Z) (variants : option (list string))
                 (defs : list (string * Z)),
            (active_masks hkl masks (Some l) code variants defs).1.1.1 = Some l)
    as Hactive.
  { intros hkl masks. induction masks as [|mask masks IH]; intros code variants defs;
      [done|].
    simpl. destruct (dict_get WIN32_LAYOUTS (Z.land hkl mask)); [|by apply IH].
    destruct (decide (l = "")); [done|]. simpl. by apply IH. }
  destruct active as [hkl|].
  - specialize (Hactive hkl [0xffffffff; 0xffff; 0x3ff] ival None
                  (dict_add_missing l ival defs1)).
    destruct (active_masks hkl [0xffffffff; 0xffff; 0x3ff] (Some l) ival None
                (dict_add_missing l ival defs1)) as [[[layout3 code3] variants3] defs3].
    simpl in Hactive. subst layout3. cbv beta zeta match.
    destruct (map fst defs3); cbn [truthy];
      destruct (decide (l = "")); try done;
      cbv beta zeta match; cbn [truthy];
      destruct (decide (l = "")); try done;
      by destruct (true && _).
  - cbv beta zeta match.
    destruct (map fst (dict_add_missing l ival defs1)); cbn [truthy];
      destruct (decide (l = "")); try done;
      cbv beta zeta match; cbn [truthy];
      destruct (decide (l = "")); try done;
      by destruct (true && _).
Qed.

(** ** [get_keyboard_repeat] *)

(** The float arithmetic of [get_keyboard_repeat], checked on each of the
    32 speed settings. *)
Lemma keyboard_speed_float (c : Z) :
  0 <= c <= 31 ->
  int_of_float
    (1000 / (2.5 + 27.5 * PrimFloat.of_uint63 (Uint63.of_Z c) / 31))%float
  = Some (12400 / (31 + 11 * c)).
Proof using Type.
  intros Hc.
  assert (forallb
            (fun n : nat =>
               match int_of_float
                       (1000 / (2.5 + 27.5 * PrimFloat.of_uint63
                                               (Uint63.of_Z (Z.of_nat n)) / 31))%float
               with
               | Some speed => speed =? 12400 / (31 + 11 * Z.of_nat n)
               | None => false
               end) (seq 0 32) = true) as Hall by (vm_compute; reflexivity).
  rewrite forallb_forall in Hall.
  specialize (Hall (Z.to_nat c)). rewrite Z2Nat.id in Hall by lia.
  destruct (int_of_float _) as [speed|].
  - f_equal. apply Z.eqb_eq, Hall, in_seq. lia.
  - discriminate Hall. apply in_seq. lia.
Qed.

(** X23: [get_keyboard_repeat] answers with the delay [(_delay+1)*250] and
    with a repeat interval that is the whole part of 12400/(31+11*s),
    where s is the speed setting clamped to 0..31: what the float
    arithmetic of the method gives is this integer quotient.  The
    interval lies between 33 and 400, a higher setting never gives a
    longer interval, and the method answers [None] exactly when one of
    the two queries fails. *)
Theorem get_keyboard_repeat_spec (_delay _speed : Z) :
  let clamped := Z.min 31 (Z.max 0 _speed) in
  get_keyboard_repeat (Some _delay) (Some _speed)
  = Some ((_delay + 1) * 250, 12400 / (31 + 11 * clamped))
  /\ 33 <= 12400 / (31 + 11 * clamped) <= 400
  /\ (forall _speed' : Z,
        _speed <= _speed' ->
        12400 / (31 + 11 * Z.min 31 (Z.max 0 _speed'))
        <= 12400 / (31 + 11 * clamped))
  /\ (forall delay speed : option Z,
        get_keyboard_repeat delay speed = None <-> delay = None \/ speed = None).
Proof using Type.
  intros clamped.
  assert (0 <= clamped <= 31) as Hc by (subst clamped; lia).
  split; [|split; [|split]].
  - unfold get_keyboard_repeat. fold clamped. by rewrite keyboard_speed_float.
  - split.
    + apply Z.div_le_lower_bound; lia.
    + apply Z.div_le_upper_bound; lia.
  - intros s' Hs. apply Z.div_le_compat_l; lia.
  - intros [d|] [s|]; simpl; try (split; [by auto|done]).
    rewrite keyboard_speed_float by lia. split; [done|]. by intros [|].
Qed.

End Win32.

Arguments Keyboard : clear implicits.
Arguments Delivery : clear implicits.
Arguments World : clear implicits.
Arguments Input : clear implicits.

(** ** The theorems at work on concrete keyboards *)

(** C2 as stated fails: Right Alt is down, "mod5" is bound to AltGr and
    nothing to Num_Lock; the mask 16 decomposes into "mod2", which is
    neither "control" nor "mod1", and [mask_to_names] removes it. *)
Lemma mask_to_names_strips_mod2 :
  let k : Keyboard nat := keyboard_bound None (Some "mod5") altgr_mappings in
  let gks := key_state (-128) 0 in
  EMULATE_ALTGR None = true
  /\ in_0_1 (gks VK_RMENU) = false
  /\ KeyboardBase_mask_to_names 16 = ["mod2"]
  /\ mask_to_names None KeyboardBase_mask_to_names gks k 16 = ["mod5"].
Proof. vm_compute. done. Qed.

Lemma mask_to_names_altgr_down_witness :
  let k : Keyboard nat := keyboard_bound (Some "mod2") (Some "mod5") altgr_numlock_mappings in
  let gks := key_state (-128) 1 in
  (EMULATE_ALTGR None = true
   /\ in_0_1 (gks VK_RMENU) = false
   /\ altgr_modifier k = Some "mod5"
   /\ "mod5" <> ""
   /\ NoDup (KeyboardBase_mask_to_names 5))
  /\ ("control" ∈ mask_to_names None KeyboardBase_mask_to_names gks k 5
      <-> ("control" = "mod5" \/ "control" ∈ KeyboardBase_mask_to_names 5)
          /\ "control" ∉ ["mod1"; "mod2"; "control"])
  /\ ("mod2" ∈ mask_to_names None KeyboardBase_mask_to_names gks k 5
      <-> gks VK_NUMLOCK <> 0).
Proof.
  intros k gks.
  assert (EMULATE_ALTGR None = true) as h1 by reflexivity.
  assert (in_0_1 (gks VK_RMENU) = false) as h2 by reflexivity.
  assert (altgr_modifier k = Some "mod5") as h3 by reflexivity.
  assert ("mod5" <> "") as h4 by discriminate.
  assert (NoDup (KeyboardBase_mask_to_names 5)) as h5
    by (apply (bool_decide_unpack _); vm_compute; exact I).
  destruct (mask_to_names_altgr_down None KeyboardBase_mask_to_names gks k 5 "mod5"
              h1 h2 h3 h4 h5) as [Hother Hnum].
  split; [by split_and!|]. split.
  - apply Hother. intros n Hn _. injection Hn as <-. discriminate.
  - apply Hnum; [reflexivity|discriminate].
Defined.

(** C3 as stated fails: Right Alt is down, NumLock is on, "mod2" is bound to
    Num_Lock and "mod5" to AltGr.  The order of the specification strips
    "mod2"; [mask_to_names] returns it. *)
Lemma mask_to_names_not_spec_order :
  let k : Keyboard nat := keyboard_bound (Some "mod2") (Some "mod5") altgr_numlock_mappings in
  let gks := key_state (-128) 1 in
  in_0_1 (gks VK_RMENU) = false
  /\ gks VK_NUMLOCK <> 0
  /\ "mod2" ∈ ["mod1"; "mod2"; "control"]
  /\ spec_mask_to_names None KeyboardBase_mask_to_names gks k 0 = ["mod5"]
  /\ mask_to_names None KeyboardBase_mask_to_names gks k 0 = ["mod5"; "mod2"].
Proof. split_and!; [reflexivity|discriminate|set_solver|by vm_compute..]. Qed.

Lemma mask_to_names_order_witness :
  let k : Keyboard nat := keyboard_bound (Some "mod2") (Some "mod5") altgr_numlock_mappings in
  let gks := key_state (-128) 1 in
  (num_lock_modifier k = Some "mod2" /\ "mod2" <> "" /\ gks VK_NUMLOCK <> 0)
  /\ "mod2" ∈ mask_to_names None KeyboardBase_mask_to_names gks k 0.
Proof.
  intros k gks.
  assert (num_lock_modifier k = Some "mod2") as h1 by reflexivity.
  assert ("mod2" <> "") as h2 by discriminate.
  assert (gks VK_NUMLOCK <> 0) as h3 by discriminate.
  split; [by split_and!|].
  exact (proj2 (mask_to_names_order None KeyboardBase_mask_to_names gks k 0)
           "mod2" h1 h2 h3).
Defined.

(** C6 as stated fails: nothing is bound to AltGr (nor to Num_Lock), Right
    Alt is down; the mask 4 decomposes into "control" and [mask_to_names]
    returns the empty list. *)
Lemma AltGr_unbound_still_strips :
  let k : Keyboard nat := keyboard_bound None None ∅ in
  let gks := key_state (-128) 0 in
  truthy (altgr_modifier k) = false
  /\ truthy (num_lock_modifier k) = false
  /\ KeyboardBase_mask_to_names 4 = ["control"]
  /\ altgr_step None gks k (KeyboardBase_mask_to_names 4) = []
  /\ mask_to_names None KeyboardBase_mask_to_names gks k 4 = [].
Proof. vm_compute. done. Qed.

Lemma unbound_modifier_steps_witness :
  let k : Keyboard nat := keyboard_bound None None ∅ in
  let up := key_state 1 1 in
  let down := key_state (-128) 1 in
  let base := KeyboardBase_mask_to_names 13 in
  (truthy (num_lock_modifier k) = false
   /\ truthy (altgr_modifier k) = false
   /\ in_0_1 (up VK_RMENU) = true
   /\ EMULATE_ALTGR None = true
   /\ in_0_1 (down VK_RMENU) = false
   /\ NoDup base)
  /\ mask_to_names None KeyboardBase_mask_to_names up k 13 = altgr_step None up k base
  /\ altgr_step None up k base = base
  /\ altgr_step None down k base
     = filter (fun x => x ∉ ["mod1"; "mod2"; "control"]) base
  /\ "control" ∉ altgr_step None down k base.
Proof.
  intros k up down base.
  assert (truthy (num_lock_modifier k) = false) as h1 by reflexivity.
  assert (truthy (altgr_modifier k) = false) as h2 by reflexivity.
  assert (in_0_1 (up VK_RMENU) = true) as h3 by reflexivity.
  assert (EMULATE_ALTGR None = true) as h4 by reflexivity.
  assert (in_0_1 (down VK_RMENU) = false) as h5 by reflexivity.
  assert (NoDup base) as h6 by (apply (bool_decide_unpack _); vm_compute; exact I).
  assert ("control" ∈ ["mod1"; "mod2"; "control"]) as h7
    by (apply (bool_decide_unpack _); vm_compute; exact I).
  destruct (unbound_modifier_steps None KeyboardBase_mask_to_names up k 13)
    as [Hnum Halt].
  destruct (unbound_modifier_steps None KeyboardBase_mask_to_names down k 13)
    as [_ Hdown].
  destruct (proj2 (proj2 (proj2 (Hdown h2))) h4 h5 h6) as [Hstrip Hnone].
  split; [by split_and!|]. split_and!.
  - exact (Hnum h1).
  - exact (proj1 (proj1 (proj2 (proj2 (Halt h2))) (or_introl h3))).
  - exact Hstrip.
  - exact (Hnone "control" h7).
Defined.

(** C1 as stated fails: after [init_vars] and the modifier mappings of a
    layout with AltGr, a [Control_L] press is followed by the key "c" and
    then by an [Alt_R], all with Right Alt read as up and without a
    timeout firing.  The key "c" flushes the slot: the [Control_L] press is
    delivered, and its timeout is still outstanding at the end. *)
Lemma Control_L_delivered_before_Alt_R :
  let up := key_state 0 0 in
  let w0 : World nat :=
    run None None KeyboardBase_modifier_keys
      (init_vars KeyboardBase_init_vars ∅ (world_of (keyboard_bound None None ∅)))
      [mappings_input altgr_mappings] in
  let w := run None None KeyboardBase_modifier_keys w0
             [key_input up 0%nat 1 Control_L_press;
              key_input up 0%nat 1 c_press;
              key_input up 0%nat 1 Alt_R_press] in
  altgr_emulated None (self w0) = true
  /\ in_0_1 (up VK_RMENU) = true
  /\ timeouts w0 = []
  /\ timeouts w = [50]
  /\ sent w = [(0%nat, 1, Control_L_press);
               (0%nat, 1, c_press);
               (0%nat, 1, mkKeyEvent ["mod5"] "" (-1) (-1) (-1) "" true)].
Proof. by vm_compute. Qed.

Lemma Control_L_then_Alt_R_witness :
  let w : World nat := world_of (keyboard_bound None (Some "mod5") altgr_mappings) in
  let up := key_state 0 0 in
  let down := key_state (-128) 0 in
  let between : list (Input nat) :=
    [key_input up 0%nat 1 VoidSymbol_event; key_input down 0%nat 1 Control_L_press] in
  let rest : list (Input nat) := [timeout_input up; key_input up 0%nat 1 Alt_R_release] in
  let w1 := process_key_event None None up 0%nat 1 Control_L_press w in
  let w1' := run None None KeyboardBase_modifier_keys w1 between in
  let w2 := process_key_event None None down 0%nat 1 Alt_R_press w1' in
  (altgr_emulated None (self w) = true
   /\ keyname Control_L_press = "Control_L"
   /\ in_0_1 (up VK_RMENU) = true
   /\ Forall held_back_input between
   /\ keyname Alt_R_press = "Alt_R"
   /\ Forall (fun i => ~ Control_L_input i) rest)
  /\ sent w1 = []
  /\ sent w1' = []
  /\ sent w2 = [(0%nat, 1, mkKeyEvent ["mod5"] "" (-1) (-1) (-1) "" true)]
  /\ pending w2 = []
  /\ exists later : list (Delivery nat),
       sent (run None None KeyboardBase_modifier_keys w2 rest)
       = [(0%nat, 1, mkKeyEvent ["mod5"] "" (-1) (-1) (-1) "" true)] ++ later
       /\ Forall (fun d : Delivery nat => keyname d.2 <> "Control_L") later.
Proof.
  intros w up down between rest w1 w1' w2.
  assert (altgr_emulated None (self w) = true) as h1 by (vm_compute; reflexivity).
  assert (keyname Control_L_press = "Control_L") as h2 by reflexivity.
  assert (in_0_1 (up VK_RMENU) = true) as h3 by reflexivity.
  assert (Forall held_back_input between) as h4.
  { constructor; [left; by split|]. constructor; [by right|constructor]. }
  assert (keyname Alt_R_press = "Alt_R") as h5 by reflexivity.
  assert (Forall (fun i : Input nat => ~ Control_L_input i) rest) as h6.
  { repeat constructor; simpl; [tauto|discriminate]. }
  split; [by split_and!|].
  destruct (Control_L_then_Alt_R None None KeyboardBase_modifier_keys up down
              0%nat 0%nat 1 1 Control_L_press Alt_R_press w between rest
              h1 h2 h3 h4 h5 h6)
    as (H1 & _ & H2 & H3 & H4 & _ & H5).
  split_and!; [exact H1|exact H2|exact H3|exact H4|exact H5].
Defined.

(** C4 as stated fails for the timers: after [init_vars] and the modifier
    mappings of a layout with AltGr, two [Control_L] presses in a row leave
    one pending event and two timeouts outstanding. *)
Lemma two_timeouts_outstanding :
  let up := key_state 0 0 in
  let inputs : list (Input nat) :=
    [mappings_input altgr_mappings;
     key_input up 0%nat 1 Control_L_press;
     key_input up 0%nat 1 Control_L_press] in
  let w := run None None KeyboardBase_modifier_keys
             (init_vars KeyboardBase_init_vars ∅ (world_of (keyboard_bound None None ∅)))
             inputs in
  reachable None None KeyboardBase_init_vars KeyboardBase_modifier_keys w
  /\ pending w = [(0%nat, 1, Control_L_press)]
  /\ timeouts w = [50; 50]
  /\ sent w = [].
Proof.
  intros up inputs w. split.
  - exists ∅, (world_of (keyboard_bound None None ∅)), inputs. reflexivity.
  - by vm_compute.
Qed.

Lemma pending_superseded_witness :
  let up := key_state 0 0 in
  let down := key_state (-128) 0 in
  let w0 : World nat :=
    init_vars KeyboardBase_init_vars ∅ (world_of (keyboard_bound None None ∅)) in
  let w := run None None KeyboardBase_modifier_keys w0
             [mappings_input altgr_mappings; key_input up 0%nat 1 Control_L_press] in
  let replaced := process_key_event None None up 5%nat 2 Control_L_press w in
  let swallowed := process_key_event None None down 5%nat 2 Control_L_press w in
  (reachable None None KeyboardBase_init_vars KeyboardBase_modifier_keys w
   /\ keyname Control_L_press = "Control_L"
   /\ pending w = [(0%nat, 1, Control_L_press)]
   /\ altgr_emulated None (self w) = true
   /\ in_0_1 (up VK_RMENU) = true
   /\ in_0_1 (down VK_RMENU) = false)
  /\ (length (pending w) <= length (timeouts w))%nat
  /\ sent replaced = sent w
  /\ pending replaced = [(5%nat, 2, Control_L_press)]
  /\ timeouts replaced = timeouts w ++ [50]
  /\ swallowed = w
  /\ sent (timeout_fire up swallowed) = sent w ++ [(0%nat, 1, Control_L_press)].
Proof.
  intros up down w0 w replaced swallowed.
  assert (reachable None None KeyboardBase_init_vars KeyboardBase_modifier_keys w)
    as h0.
  { exists ∅, (world_of (keyboard_bound None None ∅)),
      [mappings_input altgr_mappings; key_input up 0%nat 1 Control_L_press].
    reflexivity. }
  assert (keyname Control_L_press = "Control_L") as h1 by reflexivity.
  assert (pending w = [(0%nat, 1, Control_L_press)]) as h2 by (vm_compute; reflexivity).
  assert (altgr_emulated None (self w) = true) as h3 by (vm_compute; reflexivity).
  assert (in_0_1 (up VK_RMENU) = true) as h4 by reflexivity.
  assert (in_0_1 (down VK_RMENU) = false) as h5 by reflexivity.
  assert (hyper_modifier (self w) = false) as h6 by (vm_compute; reflexivity).
  destruct (pending_superseded (Callback := nat) None None KeyboardBase_init_vars
              KeyboardBase_modifier_keys) as [Hinv Hpress].
  destruct (Hpress up 5%nat 2 Control_L_press w (0%nat, 1, Control_L_press) h1 h2)
    as ((H1 & H2 & _ & H3) & _ & _); [exact h3|exact h4|].
  destruct (Hpress down 5%nat 2 Control_L_press w (0%nat, 1, Control_L_press) h1 h2)
    as (_ & (H4 & H5) & _); [exact h3|exact h5|].
  rewrite h6 in H2.
  split; [by split_and!|]. split_and!.
  - exact (proj2 (Hinv w h0)).
  - exact H1.
  - exact H2.
  - exact H3.
  - exact H4.
  - exact (proj1 (H5 h0 up)).
Defined.





Lemma process_key_event_VoidSymbol_witness :
  let up := key_state 0 0 in
  let k : Keyboard nat := keyboard_bound None (Some "mod5") altgr_mappings in
  let w := process_key_event None None up 0%nat 1 Control_L_press (world_of k) in
  (keyval VoidSymbol_event = 16777215 /\ keyname VoidSymbol_event = "VoidSymbol")
  /\ pending w = [(0%nat, 1, Control_L_press)]
  /\ process_key_event None None up 0%nat 1 VoidSymbol_event w = w.
Proof.
  intros up k w.
  assert (keyval VoidSymbol_event = 16777215) as h1 by reflexivity.
  assert (keyname VoidSymbol_event = "VoidSymbol") as h2 by reflexivity.
  split; [by split|]. split; [by vm_compute|].
  exact (process_key_event_VoidSymbol None None up 0%nat 1 VoidSymbol_event w h1 h2).
Defined.

(** ** [audio_option_or_all] *)

Lemma String_append (c : ascii) (a b : string) :
  (String c a ++ b)%string = String c (a ++ b)%string.
Proof. reflexivity. Qed.

Lemma String_append_empty (b : string) : (EmptyString ++ b)%string = b.
Proof. reflexivity. Qed.

Lemma contains_chars (c : ascii) (s : string) :
  contains c s = true <-> c ∈ list_ascii_of_string s.
Proof.
  induction s as [|d s IH]; simpl.
  - split; [done|]. by intros ?%elem_of_nil.
  - rewrite elem_of_cons. case_decide; [subst; tauto|].
    rewrite IH. split; [tauto|]. intros [->|]; done.
Qed.

Lemma contains_false_chars (c : ascii) (s : string) :
  contains c s = false <-> c ∉ list_ascii_of_string s.
Proof. rewrite <- contains_chars. by destruct (contains c s). Qed.

(** Splitting loses nothing: joining the pieces with the separator gives
    the string back, and no piece holds the separator. *)
Lemma split_nonempty (sep : ascii) (s : string) : split sep s <> [].
Proof.
  destruct s as [|c s]; simpl; [done|].
  destruct (decide (c = sep)); [done|]. by destruct (split sep s).
Qed.

Lemma split_concat (sep : ascii) (s : string) :
  String.concat (String sep EmptyString) (split sep s) = s.
Proof.
  induction s as [|c s IH]; simpl; [done|].
  pose proof (split_nonempty sep s) as Hne.
  destruct (decide (c = sep)) as [->|Hc].
  - destruct (split sep s) as [|p ps]; [done|].
    change (String.concat (String sep EmptyString) (EmptyString :: p :: ps))
      with (String sep (String.concat (String sep EmptyString) (p :: ps))).
    by rewrite IH.
  - destruct (split sep s) as [|p ps]; [done|].
    destruct ps as [|q ps]; simpl in *; by rewrite <- IH.
Qed.

Lemma split_pieces (sep : ascii) (s : string) :
  Forall (fun piece => contains sep piece = false) (split sep s).
Proof.
  induction s as [|c s IH]; simpl; [by repeat constructor|].
  destruct (decide (c = sep)) as [->|Hc]; [by constructor|].
  destruct (split sep s) as [|p ps]; [by repeat constructor; simpl; case_decide|].
  apply Forall_cons in IH as [Hp Hps]. constructor; [|done].
  simpl. by case_decide.
Qed.

Lemma split_append (sep : ascii) (a b : string) :
  split sep (a ++ String sep b)%string = split sep a ++ split sep b.
Proof.
  induction a as [|c a IH].
  - rewrite String_append_empty. simpl. by rewrite decide_True.
  - rewrite String_append. simpl. rewrite IH.
    destruct (decide (c = sep)); [done|].
    pose proof (split_nonempty sep a). by destruct (split sep a).
Qed.

Lemma split_whole (sep : ascii) (s : string) :
  contains sep s = false -> split sep s = [s].
Proof.
  induction s as [|c s IH]; simpl; [done|].
  destruct (decide (c = sep)); [done|]. intros Hs. by rewrite IH.
Qed.

(** [split] computes the comma-split of the specification, which is
    unique. *)
Lemma split_spec (entry : string) : spec_comma_split entry (split "," entry).
Proof.
  split_and!; [apply split_nonempty|apply split_concat|].
  eapply Forall_impl; [apply split_pieces|].
  intros piece. apply contains_false_chars.
Qed.

Lemma spec_comma_split_unique (entry : string) (pieces : list string) :
  spec_comma_split entry pieces -> pieces = split "," entry.
Proof.
  intros (Hne & <- & Hcomma).
  induction Hcomma as [|p ps Hp Hps IH]; [done|]. clear Hne.
  apply contains_false_chars in Hp.
  destruct ps as [|q qs].
  - simpl. by rewrite split_whole.
  - change (String.concat "," (p :: q :: qs))
      with (p ++ String "," (String.concat "," (q :: qs)))%string.
    by rewrite split_append, split_whole, <- IH.
Qed.

(** The table of [isspace] is the whitespace of the specification. *)
Lemma isspace_spec (c : ascii) : isspace c = true <-> spec_space c.
Proof.
  assert (isspace c = bool_decide (spec_space c)) as ->
    by (destruct c as [[] [] [] [] [] [] [] []]; vm_compute; reflexivity).
  apply bool_decide_eq_true.
Qed.

Lemma isspace_false (c : ascii) : ~ spec_space c -> isspace c = false.
Proof. rewrite <- isspace_spec. by destruct (isspace c). Qed.

(** Stripping removes whitespace at both ends and nothing else. *)
Lemma lstrip_spec (s : string) :
  exists ws : string,
    s = (ws ++ lstrip s)%string
    /\ Forall spec_space (list_ascii_of_string ws)
    /\ (forall c, head (list_ascii_of_string (lstrip s)) = Some c -> ~ spec_space c).
Proof.
  induction s as [|c s (ws & Hs & Hws & Hhead)]; simpl.
  - exists EmptyString. by split_and!.
  - destruct (isspace c) eqn:Hc.
    + exists (String c ws). split_and!; [rewrite String_append; by f_equal| |done].
      simpl. constructor; [by apply isspace_spec|done].
    + exists EmptyString. split_and!; [done|constructor|].
      simpl. intros d [= <-] Hd%isspace_spec. congruence.
Qed.

Lemma rstrip_spec (s : string) :
  exists ws : string,
    s = (rstrip s ++ ws)%string
    /\ Forall spec_space (list_ascii_of_string ws)
    /\ (forall c, last (list_ascii_of_string (rstrip s)) = Some c -> ~ spec_space c).
Proof.
  induction s as [|c s (ws & Hs & Hws & Hlast)]; simpl.
  - exists EmptyString. by split_and!.
  - destruct (rstrip s) as [|d r] eqn:Hr.
    + rewrite String_append_empty in Hs. destruct (isspace c) eqn:Hc.
      * exists (String c ws). split_and!; [by rewrite String_append_empty, Hs| |done].
        simpl. constructor; [by apply isspace_spec|done].
      * exists ws. split_and!; [by rewrite String_append, String_append_empty, Hs|done|].
        simpl. intros e [= <-] He%isspace_spec. congruence.
    + exists ws. split_and!; [rewrite String_append; by f_equal|done|].
      intros e He. apply Hlast. exact He.
Qed.

Lemma rstrip_head (s : string) (c : ascii) :
  head (list_ascii_of_string (rstrip s)) = Some c ->
  head (list_ascii_of_string s) = Some c.
Proof.
  destruct (rstrip_spec s) as (ws & Hs & _).
  destruct (rstrip s) as [|d r]; [done|].
  intros Hc. by rewrite Hs, String_append.
Qed.

Lemma strip_spec (piece : string) : spec_stripped piece (strip piece).
Proof.
  unfold strip.
  destruct (lstrip_spec piece) as (before & Hb & Hbefore & Hhead).
  destruct (rstrip_spec (lstrip piece)) as (after & Ha & Hafter & Hlast).
  exists before, after. split_and!; [|done|done| |done].
  - by rewrite <- Ha.
  - intros c Hc. apply Hhead. by apply rstrip_head.
Qed.

Lemma lstrip_blank (ws s : string) :
  Forall spec_space (list_ascii_of_string ws) -> lstrip (ws ++ s) = lstrip s.
Proof.
  induction ws as [|c ws IH]; simpl; [done|].
  intros [Hc Hws]%Forall_cons.
  apply isspace_spec in Hc. rewrite Hc. by apply IH.
Qed.

Lemma lstrip_all_blank (ws : string) :
  Forall spec_space (list_ascii_of_string ws) -> lstrip ws = EmptyString.
Proof.
  induction ws as [|c ws IH]; simpl; [done|].
  intros [Hc Hws]%Forall_cons. apply isspace_spec in Hc. rewrite Hc. by apply IH.
Qed.

Lemma lstrip_head (t s : string) :
  (forall c, head (list_ascii_of_string t) = Some c -> ~ spec_space c) ->
  t <> EmptyString ->
  lstrip (t ++ s) = (t ++ s)%string.
Proof.
  intros Hhead Hne. destruct t as [|c t]; [done|].
  rewrite String_append. simpl. rewrite (isspace_false c); [done|]. by apply Hhead.
Qed.

Lemma rstrip_all_blank (ws : string) :
  Forall spec_space (list_ascii_of_string ws) -> rstrip ws = EmptyString.
Proof.
  induction ws as [|c ws IH]; simpl; [done|].
  intros [Hc Hws]%Forall_cons. rewrite IH by done.
  apply isspace_spec in Hc. by rewrite Hc.
Qed.

Lemma rstrip_blank (s ws : string) :
  Forall spec_space (list_ascii_of_string ws) -> rstrip (s ++ ws) = rstrip s.
Proof.
  intros Hws. induction s as [|c s IH].
  - rewrite String_append_empty. by apply rstrip_all_blank.
  - rewrite String_append. simpl. by rewrite IH.
Qed.

Lemma rstrip_last (t : string) :
  (forall c, last (list_ascii_of_string t) = Some c -> ~ spec_space c) ->
  rstrip t = t.
Proof.
  induction t as [|c t IH]; [done|].
  intros Hlast. simpl. destruct t as [|d t].
  - simpl. rewrite (isspace_false c); [done|]. by apply Hlast.
  - rewrite IH; [done|]. intros e He. by apply Hlast.
Qed.

Lemma spec_stripped_unique (piece token : string) :
  spec_stripped piece token -> token = strip piece.
Proof.
  intros (before & after & -> & Hbefore & Hafter & Hhead & Hlast).
  unfold strip. rewrite lstrip_blank by done.
  destruct token as [|c t].
  - rewrite String_append_empty, lstrip_all_blank by done. done.
  - rewrite lstrip_head, rstrip_blank, rstrip_last by done. done.
Qed.

(** The token list of the code is the token list of the specification,
    and there is no other. *)
Lemma option_tokens_pieces (options : list string) :
  option_tokens options = map strip (concat (map (split ",") options)).
Proof.
  unfold option_tokens. induction options as [|x xs IH]; simpl; [done|].
  by rewrite IH, map_app.
Qed.

Lemma option_tokens_spec (options : list string) :
  spec_tokens options (option_tokens options).
Proof.
  exists (map (split ",") options). split.
  - apply Forall2_fmap_r, Forall_Forall2_diag, Forall_forall.
    intros x _. apply split_spec.
  - rewrite option_tokens_pieces. apply Forall2_fmap_r, Forall_Forall2_diag, Forall_forall.
    intros piece _. apply strip_spec.
Qed.

Lemma spec_tokens_unique (options tokens : list string) :
  spec_tokens options tokens -> tokens = option_tokens options.
Proof.
  intros (pieces & Hsplit & Hstrip). rewrite option_tokens_pieces.
  assert (map (split ",") options = pieces) as ->.
  { clear Hstrip. induction Hsplit as [|x ps xs pss Hx _ IH]; [done|].
    simpl. f_equal; [|done]. symmetry. by apply spec_comma_split_unique. }
  clear Hsplit. induction Hstrip as [|piece token ps ts Hp _ IH]; [done|].
  simpl. f_equal; [|done]. by apply spec_stripped_unique.
Qed.

(** The two loops of [audio_option_or_all] sort the tokens, in order, into
    the valid and the invalid ones. *)
Lemma file_options_filter (all_values : list string) (pieces : list string)
    (acc : list string * list string) :
  fold_left (file_option all_values) pieces acc
  = (acc.1 ++ filter (fun o => o ∈ all_values) (map strip pieces),
     acc.2 ++ filter (fun o => o ∉ all_values) (map strip pieces)).
Proof.
  revert acc. induction pieces as [|piece pieces IH]; intros [v invalid]; simpl.
  - by rewrite !app_nil_r.
  - rewrite IH. unfold file_option. simpl.
    destruct (decide (strip piece ∉ all_values)) as [Hout|Hin]; simpl.
    + rewrite (filter_cons_True (fun o => o ∉ all_values)) by done.
      rewrite filter_cons_False by (intros ?; done).
      by rewrite <- app_assoc.
    + apply dec_stable in Hin.
      rewrite (filter_cons_False (fun o => o ∉ all_values)) by (intros ?; done).
      rewrite filter_cons_True by done.
      by rewrite <- app_assoc.
Qed.

Lemma options_loop_filter (all_values : list string) (options : list string)
    (acc : list string * list string) :
  fold_left (fun acc x => fold_left (file_option all_values) (split "," x) acc)
    options acc
  = (acc.1 ++ filter (fun o => o ∈ all_values) (option_tokens options),
     acc.2 ++ filter (fun o => o ∉ all_values) (option_tokens options)).
Proof.
  revert acc. induction options as [|x options IH]; intros [v invalid]; simpl.
  - by rewrite !app_nil_r.
  - rewrite IH, file_options_filter. simpl.
    by rewrite !filter_app, !app_assoc.
Qed.

(** C10: without options the result is [all_values].  With options, the
    comma-split and whitespace-stripped tokens of the entries exist, and
    whatever list meets that description, the result is the list of its
    members of [all_values], in the order met and as often as met; so every
    element of the result is a member of [all_values], and the tokens that
    are not members only decide which warnings are logged. *)
Theorem audio_option_or_all_spec (name : string) (all_values : list string) :
  audio_option_or_all name [] all_values = (all_values, [])
  /\ forall (x : string) (xs : list string),
       let result := audio_option_or_all name (x :: xs) all_values in
       spec_tokens (x :: xs) (option_tokens (x :: xs))
       /\ forall tokens : list string,
            spec_tokens (x :: xs) tokens ->
            let invalid := filter (fun o => o ∉ all_values) tokens in
            result.1 = filter (fun o => o ∈ all_values) tokens
            /\ Forall (fun o => o ∈ all_values) result.1
            /\ result.2
               = match invalid, all_values with
                 | [], _ => []
                 | _ :: _, _ :: _ =>
                     [invalid_values name invalid; valid_options all_values]
                 | _ :: _, [] => [none_available name]
                 end.
Proof.
  split; [reflexivity|].
  intros x xs result. split; [apply option_tokens_spec|].
  intros tokens ->%spec_tokens_unique invalid.
  subst result. unfold audio_option_or_all.
  rewrite options_loop_filter. cbn [fst snd app]. fold invalid.
  split_and!.
  - reflexivity.
  - apply Forall_forall. intros o Ho. by apply list_elem_of_filter in Ho as [? _].
  - by destruct invalid, all_values.
Qed.

Lemma audio_option_or_all_spec_witness :
  let options := ["mp3 , ogg"; " opus"] in
  let tokens := ["mp3"; "ogg"; "opus"] in
  let all_values := ["opus"; "mp3"] in
  spec_tokens options tokens
  /\ audio_option_or_all "speaker-codec" options all_values
     = (["mp3"; "opus"],
        [invalid_values "speaker-codec" ["ogg"]; valid_options all_values]).
Proof.
  intros options tokens all_values.
  assert (spec_stripped "mp3 " "mp3") as s1.
  { exists "", " ". split; [reflexivity|].
    split; [constructor|]. split; [by_computation|].
    split; intros c Hc; injection Hc as <-; by_computation. }
  assert (spec_stripped " ogg" "ogg") as s2.
  { exists " ", "". split; [reflexivity|].
    split; [by_computation|]. split; [constructor|].
    split; intros c Hc; injection Hc as <-; by_computation. }
  assert (spec_stripped " opus" "opus") as s3.
  { exists " ", "". split; [reflexivity|].
    split; [by_computation|]. split; [constructor|].
    split; intros c Hc; injection Hc as <-; by_computation. }
  assert (spec_comma_split "mp3 , ogg" ["mp3 "; " ogg"]) as c1.
  { split; [discriminate|]. split; [reflexivity|by_computation]. }
  assert (spec_comma_split " opus" [" opus"]) as c2.
  { split; [discriminate|]. split; [reflexivity|by_computation]. }
  assert (spec_tokens options tokens) as h1.
  { exists [["mp3 "; " ogg"]; [" opus"]]. split.
    - apply List.Forall2_cons; [exact c1|]. apply List.Forall2_cons; [exact c2|constructor].
    - apply List.Forall2_cons; [exact s1|]. apply List.Forall2_cons; [exact s2|].
      apply List.Forall2_cons; [exact s3|constructor]. }
  split; [exact h1|].
  destruct (proj2 (audio_option_or_all_spec "speaker-codec" all_values)
              "mp3 , ogg" [" opus"]) as [_ Hspec].
  destruct (Hspec tokens h1) as (H1 & _ & H2).
  apply injective_projections; [exact H1|exact H2].
Defined.

(** ** More on [audio_option_or_all] *)

Lemma option_tokens_app (xs ys : list string) :
  option_tokens (xs ++ ys) = option_tokens xs ++ option_tokens ys.
Proof. unfold option_tokens. apply flat_map_app. Qed.

Lemma option_tokens_nonempty (x : string) (xs : list string) :
  option_tokens (x :: xs) <> [].
Proof.
  unfold option_tokens. simpl.
  pose proof (split_nonempty "," x). by destruct (split "," x).
Qed.

(** With options given, the result and the warnings are read off the token
    list. *)
Lemma audio_option_or_all_tokens (name : string) (options all_values : list string) :
  options <> [] ->
  audio_option_or_all name options all_values
  = (filter (fun o => o ∈ all_values) (option_tokens options),
     match filter (fun o => o ∉ all_values) (option_tokens options), all_values with
     | [], _ => []
     | (_ :: _) as invalid, _ :: _ =>
         [invalid_values name invalid; valid_options all_values]
     | _ :: _, [] => [none_available name]
     end).
Proof.
  intros Hne. destruct options as [|x xs]; [done|].
  unfold audio_option_or_all. rewrite options_loop_filter. cbn [fst snd app].
  by destruct (filter (fun o => o ∉ all_values) (option_tokens (x :: xs))), all_values.
Qed.

(** X1: an entry with an embedded comma counts as two entries: the parts
    before and after the comma can be given as one option or as two
    neighbouring options, with the same result and the same warnings. *)
Theorem audio_option_or_all_csv (name : string) (before after : list string)
    (a b : string) (all_values : list string) :
  audio_option_or_all name (before ++ [(a ++ String "," b)%string] ++ after) all_values
  = audio_option_or_all name (before ++ [a; b] ++ after) all_values.
Proof.
  rewrite !audio_option_or_all_tokens by (by destruct before).
  assert (option_tokens (before ++ [(a ++ String "," b)%string] ++ after)
          = option_tokens (before ++ [a; b] ++ after)) as ->; [|done].
  rewrite !option_tokens_app. f_equal. f_equal.
  unfold option_tokens. simpl. rewrite !app_nil_r.
  by rewrite split_append, map_app.
Qed.

(** X2: when every token given is a member of [all_values], the result is
    the token list itself and nothing is logged as a warning. *)
Theorem audio_option_or_all_valid (name : string) (options all_values : list string) :
  options <> [] ->
  Forall (fun o => o ∈ all_values) (option_tokens options) ->
  audio_option_or_all name options all_values = (option_tokens options, []).
Proof.
  intros Hne Hall. rewrite audio_option_or_all_tokens by done.
  rewrite filter_all by done.
  rewrite (filter_none (fun o => o ∉ all_values)); [done|].
  eapply Forall_impl; [exact Hall|]. intros o Ho Hn. by apply Hn.
Qed.

(** X3: options of which no token is valid give the empty result, not the
    default: only an empty [options] falls back on [all_values].  The
    invalid tokens are all reported, or, with no value available at all,
    the shortage is. *)
Theorem audio_option_or_all_invalid (name : string) (options all_values : list string) :
  options <> [] ->
  Forall (fun o => o ∉ all_values) (option_tokens options) ->
  audio_option_or_all name options all_values
  = ([], match all_values with
         | [] => [none_available name]
         | _ :: _ => [invalid_values name (option_tokens options);
                      valid_options all_values]
         end).
Proof.
  intros Hne Hall. rewrite audio_option_or_all_tokens by done.
  rewrite (filter_all (fun o => o ∉ all_values)) by done.
  rewrite filter_none by (eapply Forall_impl; [exact Hall|]; by intros o Ho Hn).
  destruct options as [|x xs]; [done|].
  pose proof (option_tokens_nonempty x xs).
  by destruct (option_tokens (x :: xs)), all_values.
Qed.

(** X4: the result can be fed back as options.  When the values of
    [all_values] hold no comma and no whitespace at their ends, parsing a
    non-empty result again returns it unchanged, without warnings. *)
Theorem audio_option_or_all_again (name name' : string)
    (options all_values : list string) :
  Forall (fun v => contains "," v = false /\ strip v = v) all_values ->
  let result := (audio_option_or_all name options all_values).1 in
  result <> [] ->
  audio_option_or_all name' result all_values = (result, []).
Proof.
  intros Hclean result Hne.
  assert (Forall (fun o => o ∈ all_values) result) as Hin.
  { subst result. destruct options as [|x xs].
    - simpl. by apply Forall_forall.
    - rewrite audio_option_or_all_tokens by done. simpl.
      apply Forall_forall. intros o Ho. by apply list_elem_of_filter in Ho as [? _]. }
  assert (option_tokens result = result) as Htok.
  { clear Hne. induction Hin as [|o l Ho Hl IH]; [done|].
    change (option_tokens (o :: l))
      with (map strip (split "," o) ++ option_tokens l).
    rewrite IH. rewrite Forall_forall in Hclean.
    destruct (Hclean o Ho) as [Hcomma Hstrip].
    rewrite split_whole by done. simpl. by rewrite Hstrip. }
  rewrite audio_option_or_all_tokens, Htok by done.
  rewrite filter_all by done.
  rewrite (filter_none (fun o => o ∉ all_values)); [done|].
  eapply Forall_impl; [exact Hin|]. intros o Ho Hn. by apply Hn.
Qed.

(** ** The further properties at work *)

Lemma audio_option_or_all_valid_witness :
  let options := ["mp3, opus"; "flac"] in
  let all_values := ["mp3"; "flac"; "opus"; "wav"] in
  (options <> [] /\ Forall (fun o => o ∈ all_values) (option_tokens options))
  /\ audio_option_or_all "speaker-codec" options all_values
     = (option_tokens options, []).
Proof.
  intros options all_values.
  assert (options <> []) as h1 by discriminate.
  assert (Forall (fun o => o ∈ all_values) (option_tokens options)) as h2
    by (apply (bool_decide_unpack _); vm_compute; exact I).
  split; [by split|].
  exact (audio_option_or_all_valid "speaker-codec" options all_values h1 h2).
Defined.

Lemma audio_option_or_all_invalid_witness :
  let options := ["ogg"; "mka ,raw"] in
  let all_values := ["mp3"; "flac"] in
  (options <> [] /\ Forall (fun o => o ∉ all_values) (option_tokens options))
  /\ audio_option_or_all "speaker-codec" options all_values
     = ([], [invalid_values "speaker-codec" (option_tokens options);
             valid_options all_values]).
Proof.
  intros options all_values.
  assert (options <> []) as h1 by discriminate.
  assert (Forall (fun o => o ∉ all_values) (option_tokens options)) as h2
    by (apply (bool_decide_unpack _); vm_compute; exact I).
  split; [by split|].
  exact (audio_option_or_all_invalid "speaker-codec" options all_values h1 h2).
Defined.

Lemma audio_option_or_all_again_witness :
  let options := ["opus ,mp3"; "speex"] in
  let all_values := ["mp3"; "opus"] in
  (Forall (fun v => contains "," v = false /\ strip v = v) all_values
   /\ (audio_option_or_all "codec" options all_values).1 <> [])
  /\ audio_option_or_all "codec" (audio_option_or_all "codec" options all_values).1
       all_values
     = ((audio_option_or_all "codec" options all_values).1, []).
Proof.
  intros options all_values.
  assert (Forall (fun v => contains "," v = false /\ strip v = v) all_values) as h1
    by (repeat constructor).
  assert ((audio_option_or_all "codec" options all_values).1 <> []) as h2
    by (vm_compute; discriminate).
  split; [by split|].
  exact (audio_option_or_all_again "codec" "codec" options all_values h1 h2).
Defined.

Lemma AltGr_modifiers_filter_witness :
  let k : Keyboard nat := keyboard_bound None (Some "mod5") altgr_mappings in
  let l := ["shift"; "control"; "mod2"] in
  NoDup l /\ AltGr_modifiers k l true = ["shift"; "mod5"].
Proof.
  intros k l.
  assert (NoDup l) as h1 by (apply (bool_decide_unpack _); vm_compute; exact I).
  split; [exact h1|].
  exact (AltGr_modifiers_filter k l true h1).
Defined.

Lemma AltGr_modifiers_idempotent_witness :
  let k : Keyboard nat := keyboard_bound None (Some "mod5") altgr_mappings in
  let l := ["shift"; "control"; "mod2"] in
  NoDup l
  /\ AltGr_modifiers k (AltGr_modifiers k l true) true = AltGr_modifiers k l true.
Proof.
  intros k l.
  assert (NoDup l) as h1 by (apply (bool_decide_unpack _); vm_compute; exact I).
  split; [exact h1|].
  exact (AltGr_modifiers_idempotent k l true h1).
Defined.

Lemma mask_to_names_NoDup_witness :
  let k : Keyboard nat := keyboard_bound (Some "mod2") (Some "mod5") altgr_numlock_mappings in
  let gks := key_state (-128) 1 in
  NoDup (KeyboardBase_mask_to_names 21)
  /\ NoDup (mask_to_names None KeyboardBase_mask_to_names gks k 21)
  /\ "mod2" ∈ mask_to_names None KeyboardBase_mask_to_names gks k 21.
Proof.
  intros k gks.
  assert (NoDup (KeyboardBase_mask_to_names 21)) as h1
    by (apply (bool_decide_unpack _); vm_compute; exact I).
  destruct (mask_to_names_NoDup None KeyboardBase_mask_to_names gks k 21 h1)
    as [Hnd Hnum].
  split_and!; [exact h1|exact Hnd|].
  apply (Hnum "mod2"); [reflexivity|discriminate|discriminate].
Defined.

Lemma process_key_event_flush_witness :
  let up := key_state 0 0 in
  let k : Keyboard nat := keyboard_bound None (Some "mod5") altgr_mappings in
  let w := process_key_event None None up 0%nat 1 Control_L_press (world_of k) in
  ((keyname c_press ∉ ["VoidSymbol"; "Delete"])
   /\ (keyname c_press ∉ ["Control_L"; "Alt_R"]))
  /\ sent (process_key_event None None up 0%nat 1 c_press w)
     = [(0%nat, 1, Control_L_press); (0%nat, 1, c_press)]
  /\ pending (process_key_event None None up 0%nat 1 c_press w) = [].
Proof.
  intros up k w.
  assert (keyname c_press ∉ ["VoidSymbol"; "Delete"]) as h1
    by (apply (bool_decide_unpack _); vm_compute; exact I).
  assert (keyname c_press ∉ ["Control_L"; "Alt_R"]) as h2
    by (apply (bool_decide_unpack _); vm_compute; exact I).
  split; [by split|].
  destruct (process_key_event_flush None None up 0%nat 1 c_press w h1 (or_intror h2))
    as (H1 & H2 & _).
  split; [exact H1|exact H2].
Defined.

Lemma Control_L_swallowed_witness :
  let down := key_state (-128) 0 in
  let w : World nat := world_of (keyboard_bound None (Some "mod5") altgr_mappings) in
  (altgr_emulated None (self w) = true
   /\ keyname Control_L_press = "Control_L"
   /\ in_0_1 (down VK_RMENU) = false)
  /\ process_key_event None None down 0%nat 1 Control_L_press w = w.
Proof.
  intros down w.
  assert (altgr_emulated None (self w) = true) as h1 by (vm_compute; reflexivity).
  assert (keyname Control_L_press = "Control_L") as h2 by reflexivity.
  assert (in_0_1 (down VK_RMENU) = false) as h3 by reflexivity.
  split; [by split_and!|].
  exact (Control_L_swallowed None None down 0%nat 1 Control_L_press w h1 h2 h3).
Defined.

Lemma Delete_carries_Hyper_witness :
  let up := key_state 0 0 in
  let w : World nat := world_of (keyboard_bound None None ∅) in
  let w1 := process_key_event None None up 0%nat 1 Delete_press w in
  let w2 := process_key_event None None up 0%nat 1 c_press w1 in
  (keyname Delete_press = "Delete"
   /\ keyname c_press ∉ ["VoidSymbol"; "Delete"; "Control_L"; "Alt_R"])
  /\ sent w1 = [(0%nat, 1, mkKeyEvent [] "Hyper_L" 16777215 50 0 "" true)]
  /\ hyper_modifier (self w1) = true
  /\ sent w2 = sent w1 ++ [(0%nat, 1, mkKeyEvent ["control"; "mod4"] "c" 99 67 0 "c" true)].
Proof.
  intros up w w1 w2.
  assert (keyname Delete_press = "Delete") as h1 by reflexivity.
  assert (keyname c_press ∉ ["VoidSymbol"; "Delete"; "Control_L"; "Alt_R"]) as h2
    by (apply (bool_decide_unpack _); vm_compute; exact I).
  split; [by split|].
  destruct (Delete_carries_Hyper None None up up 0%nat 0%nat 1 1 Delete_press c_press
              w h1 h2) as (H1 & H2 & H3).
  split_and!; [exact H1|exact H2|exact H3].
Defined.

Lemma stale_timeout_releases_later_press_witness :
  let up := key_state 0 0 in
  let w : World nat := world_of (keyboard_bound None (Some "mod5") altgr_mappings) in
  let w2 := process_key_event None None up 5%nat 2 Control_L_press
              (process_key_event None None up 0%nat 1 Control_L_press w) in
  let w3 := timeout_fire up w2 in
  (altgr_emulated None (self w) = true
   /\ keyname Control_L_press = "Control_L"
   /\ in_0_1 (up VK_RMENU) = true)
  /\ sent w2 = []
  /\ sent w3 = [(5%nat, 2, Control_L_press)]
  /\ pending w3 = []
  /\ length (timeouts w3) = 1%nat.
Proof.
  intros up w w2 w3.
  assert (altgr_emulated None (self w) = true) as h1 by (vm_compute; reflexivity).
  assert (keyname Control_L_press = "Control_L") as h2 by reflexivity.
  assert (in_0_1 (up VK_RMENU) = true) as h3 by reflexivity.
  split; [by split_and!|].
  exact (stale_timeout_releases_later_press None None up up up 0%nat 5%nat 1 2
           Control_L_press Control_L_press w h1 h2 h2 h3 h3 h3).
Defined.

Lemma reachable_pending_Control_L_witness :
  let up := key_state 0 0 in
  let inputs : list (Input nat) :=
    [mappings_input altgr_mappings; key_input up 0%nat 1 Control_L_press] in
  let w := run None None KeyboardBase_modifier_keys
             (init_vars KeyboardBase_init_vars ∅ (world_of (keyboard_bound None None ∅)))
             inputs in
  reachable None None KeyboardBase_init_vars KeyboardBase_modifier_keys w
  /\ pending w = [(0%nat, 1, Control_L_press)]
  /\ Forall (fun d : Delivery nat => keyname d.2 = "Control_L") (pending w).
Proof.
  intros up inputs w.
  assert (reachable None None KeyboardBase_init_vars KeyboardBase_modifier_keys w) as h1.
  { exists ∅, (world_of (keyboard_bound None None ∅)), inputs. reflexivity. }
  split_and!; [exact h1|by vm_compute|].
  exact (reachable_pending_Control_L None None KeyboardBase_init_vars
           KeyboardBase_modifier_keys w h1).
Defined.

Lemma emulation_disabled_no_delay_witness :
  let up := key_state 0 0 in
  let inputs : list (Input nat) :=
    [key_input up 0%nat 1 Control_L_press; key_input up 0%nat 1 VoidSymbol_event;
     timeout_input up; key_input up 0%nat 1 Alt_R_press] in
  let w : World nat := world_of (keyboard_bound None (Some "mod5") altgr_mappings) in
  let w' := run (Some false) None KeyboardBase_modifier_keys w inputs in
  (EMULATE_ALTGR (Some false) = false /\ pending w = [])
  /\ pending w' = []
  /\ timeouts w' = []
  /\ sent w' = [(0%nat, 1, Control_L_press); (0%nat, 1, Alt_R_press)].
Proof.
  intros up inputs w w'.
  assert (EMULATE_ALTGR (Some false) = false) as h1 by reflexivity.
  assert (pending w = []) as h2 by reflexivity.
  split; [by split|].
  destruct (emulation_disabled_no_delay (Some false) None KeyboardBase_modifier_keys
              inputs w h1 h2) as (H1 & _ & _).
  split_and!; [exact H1|by vm_compute|by vm_compute].
Defined.

Lemma get_layout_spec_name_first_witness :
  let queries :=
    mkLayoutQueries (Some [Some 0x04090409; Some 0x040c040c]) (Some (Some 0x40c))
      (Some 0x04090409) in
  let w : World nat := world_of (keyboard_bound None None ∅) in
  (layout_name queries = Some (Some 0x40c)
   /\ sample_keyboards !! Z.land 0x40c 0xffffffff = Some ("fr", "French")
   /\ "fr" <> "??" /\ "fr" <> "")
  /\ (get_layout_spec sample_layouts sample_keyboards queries w).1.1.1.1.1.1
     = Some "fr".
Proof.
  intros queries w.
  assert (layout_name queries = Some (Some 0x40c)) as h1 by reflexivity.
  assert (sample_keyboards !! Z.land 0x40c 0xffffffff = Some ("fr", "French")) as h2
    by (vm_compute; reflexivity).
  assert ("fr" <> "??") as h3 by discriminate.
  assert ("fr" <> "") as h4 by discriminate.
  split; [by split_and!|].
  exact (get_layout_spec_name_first sample_layouts sample_keyboards queries w
           0x40c "fr" "French" h1 h2 h3 h4).
Defined.
